(** * RNSensitiveInfo for Windows: the credential-vault adapter

    A shallow embedding of [src/windows/code/RNSensitiveInfoCPP.cpp]
    (namespace [winrt::RNSensitiveInfoCPP]) and the properties its
    specification states about it.

    The adapter is a thin layer over three things it does not own:
    - the React Native for Windows value type [JSValue] and its conversion
      [AsString];
    - the C++/WinRT text conversions [to_hstring] and [to_string];
    - the operating system's [PasswordVault].
    They are gathered in the interface [Platform] below; the adapter's six
    methods are written once, over any platform, in a small monad that
    threads the vault, records every platform call with its outcome, and
    logs what is called on the promise. *)

From Stdlib Require Import ZArith.
From Stdlib Require Import Floats.SpecFloat.
From stdpp Require Import base option list gmap strings pretty.

Set Warnings "-register-all".

Local Open Scope string_scope.
Local Open Scope list_scope.
Local Open Scope stdpp_scope.

(** ** Values crossing the JavaScript boundary *)

(** [winrt::Microsoft::ReactNative::JSValue]: a tagged union of the seven
    JSON-like types; [JSValueObject] is a [std::map] from names to values,
    read by [find]. *)
Inductive JSValue : Type :=
| JSNull
| JSObject (properties : gmap string JSValue)
| JSArray (items : list JSValue)
| JSString (s : string)
| JSBoolean (b : bool)
| JSInt64 (n : Z)
| JSDouble (d : spec_float).

Abbreviation JSValueObject := (gmap string JSValue).

(** [ReactPromise<T>]: the two ways a caller's promise is completed. *)
Inductive Settlement (T : Type) : Type :=
| Resolve (value : T)
| Reject (reason : string).
Arguments Resolve {T} value.
Arguments Reject {T} reason.

(** ** The platform underneath *)

(** A Windows error code, carried by [winrt::hresult_error]. *)
Definition hresult := Z.

(** How a platform call ends: it returns, or it throws. *)
Inductive Outcome (A : Type) : Type :=
| Returned (a : A)
| Raised (e : hresult).
Arguments Returned {A} a.
Arguments Raised {A} e.

(** C++/WinRT text: [winrt::hstring] (UTF-16) against [std::string]
    (UTF-8), with the two conversions the adapter calls. *)
Class Text := {
  hstring : Type;
  hstring_eq_dec :: EqDecision hstring;
  hstring_countable :: Countable hstring;
  to_hstring : string -> hstring;
  to_string : hstring -> string
}.

(** [Windows::Security::Credentials::PasswordCredential], read as a
    value: its getters [Resource()], [UserName()] and [Password()] are
    the projections. *)
Record PasswordCredential `{Text} : Type := {
  Resource : hstring;
  UserName : hstring;
  Password : hstring
}.

(** What the adapter calls and does not implement. [Vault] is the state of
    the credential locker as the platform keeps it; every call may change
    it, and may throw. [Retrieve] yields a null credential as [None]: the
    adapter tests its result with [!data]. *)
Class Platform `{Text} := {
  AsString : JSValue -> string;
  Vault : Type;
  PasswordVault : Vault -> Vault * Outcome unit;
  New_PasswordCredential : hstring -> hstring -> hstring -> Vault -> Vault * Outcome unit;
  Retrieve : hstring -> hstring -> Vault -> Vault * Outcome (option PasswordCredential);
  Add : PasswordCredential -> Vault -> Vault * Outcome unit;
  Remove : PasswordCredential -> Vault -> Vault * Outcome unit;
  FindAllByResource : hstring -> Vault -> Vault * Outcome (list PasswordCredential)
}.

(** ** Running a method *)

(** How a piece of C++ ends: normally, by an exception in flight, or by
    calling a method on a null WinRT object, which no [catch] sees. *)
Inductive Completion (A : Type) : Type :=
| Normal (a : A)
| Thrown (e : hresult)
| Undefined.

Arguments Normal {A} a.
Arguments Thrown {A} e.
Arguments Undefined {A}.

Section Monad.
Context `{Platform}.

(** A call that reached the platform. *)
Inductive VaultCall : Type :=
| Call_PasswordVault
| Call_PasswordCredential (resource userName password : hstring)
| Call_Retrieve (resource userName : hstring)
| Call_Add (credential : PasswordCredential)
| Call_Remove (credential : PasswordCredential)
| Call_FindAllByResource (resource : hstring).

(** A call together with the exception it threw, if any. *)
Definition Event : Type := VaultCall * option hresult.

(** What one run leaves behind: the vault, the platform calls made in
    order, the calls made on the promise in order, and how it ended. *)
Record Run (T A : Type) : Type := MkRun {
  vault_after : Vault;
  trace : list Event;
  settled : list (Settlement T);
  completion : Completion A
}.

Definition M (T A : Type) : Type := Vault -> Run T A.

End Monad.

Arguments MkRun {_ _ T A} vault_after trace settled completion.
Arguments vault_after {_ _ T A} r.
Arguments trace {_ _ T A} r.
Arguments settled {_ _ T A} r.
Arguments completion {_ _ T A} r.

Section Adapter.
Context `{Platform}.

Definition ret {T A} (a : A) : M T A :=
  fun v => MkRun v [] [] (Normal a).

(** Sequencing: an exception or a fault skips the rest. *)
Definition bind {T A B} (m : M T A) (k : A -> M T B) : M T B :=
  fun v =>
    let r := m v in
    match completion r with
    | Normal a =>
        let r' := k a (vault_after r) in
        MkRun (vault_after r') (trace r ++ trace r')
              (settled r ++ settled r') (completion r')
    | Thrown e => MkRun (vault_after r) (trace r) (settled r) (Thrown e)
    | Undefined => MkRun (vault_after r) (trace r) (settled r) Undefined
    end.

#[export] Instance M_ret {T} : MRet (M T) := fun A => @ret T A.
#[export] Instance M_bind {T} : MBind (M T) := fun A B k m => @bind T A B m k.

(** [try { body } catch (...) { handler }]: whatever the body did before
    it threw stays done. *)
Definition try_catch {T} (body handler : M T unit) : M T unit :=
  fun v =>
    let r := body v in
    match completion r with
    | Thrown _ =>
        let r' := handler (vault_after r) in
        MkRun (vault_after r') (trace r ++ trace r')
              (settled r ++ settled r') (completion r')
    | _ => r
    end.

(** A platform call, recorded with its outcome. *)
Definition invoke {T A} (c : VaultCall) (f : Vault -> Vault * Outcome A) : M T A :=
  fun v =>
    match f v with
    | (v', Returned a) => MkRun v' [(c, None)] [] (Normal a)
    | (v', Raised e) => MkRun v' [(c, Some e)] [] (Thrown e)
    end.

(** [promise.Resolve(value)] and [promise.Reject(reason)]. *)
Definition promise_Resolve {T} (value : T) : M T unit :=
  fun v => MkRun v [] [Resolve value] (Normal ()).

Definition promise_Reject {T} (reason : string) : M T unit :=
  fun v => MkRun v [] [Reject reason] (Normal ()).

(** Member access [data.f()] on a WinRT object that may be null. *)
Definition deref {T A} (data : option A) : M T A :=
  fun v =>
    match data with
    | Some a => MkRun v [] [] (Normal a)
    | None => MkRun v [] [] Undefined
    end.

(** [std::string::empty]. *)
Definition string_empty (s : string) : bool :=
  match s with
  | EmptyString => true
  | String _ _ => false
  end.

(** ** The adapter *)

Definition getSharedPreferences (options : JSValueObject) : string :=
  match options !! "sharedPreferencesName" with
  | Some search => AsString search
  | None => "shared_preferences"
  end.

Definition getItem (key : string) (options : JSValueObject) : M string unit :=
  if string_empty key then
    promise_Reject "key is empty"
  else
    try_catch
      (let name := getSharedPreferences options in
       _ ← invoke Call_PasswordVault PasswordVault;
       data ← invoke (Call_Retrieve (to_hstring name) (to_hstring key))
                     (Retrieve (to_hstring name) (to_hstring key));
       match data with
       | None => promise_Reject "key not found"
       | Some data => promise_Resolve (to_string (Password data))
       end)
      (promise_Reject "cannot access datastore").

Definition setItem (key value : string) (options : JSValueObject) : M string unit :=
  if string_empty key then
    promise_Reject "key is empty"
  else
    try_catch
      (let name := getSharedPreferences options in
       _ ← invoke Call_PasswordVault PasswordVault;
       _ ← invoke (Call_PasswordCredential (to_hstring name) (to_hstring key) (to_hstring value))
                  (New_PasswordCredential (to_hstring name) (to_hstring key) (to_hstring value));
       let creds := {| Resource := to_hstring name;
                       UserName := to_hstring key;
                       Password := to_hstring value |} in
       _ ← invoke (Call_Add creds) (Add creds);
       promise_Resolve value)
      (promise_Reject "cannot access datastore").

Definition deleteItem (key : string) (options : JSValueObject) : M string unit :=
  if string_empty key then
    promise_Reject "key is empty"
  else
    try_catch
      (let name := getSharedPreferences options in
       _ ← invoke Call_PasswordVault PasswordVault;
       data ← invoke (Call_Retrieve (to_hstring name) (to_hstring key))
                     (Retrieve (to_hstring name) (to_hstring key));
       match data with
       | None => promise_Reject "key not found"
       | Some data =>
           _ ← invoke (Call_Remove data) (Remove data);
           promise_Resolve key
       end)
      (promise_Reject "cannot access datastore").

(** The [for] loop of [getAllItems] over the enumerated credentials. *)
Fixpoint getAllItems_loop (name : string) (allKeys : list PasswordCredential)
    (returnValue : JSValueObject) : M JSValueObject JSValueObject :=
  match allKeys with
  | [] => ret returnValue
  | key :: rest =>
      data ← invoke (Call_Retrieve (to_hstring name) (UserName key))
                    (Retrieve (to_hstring name) (UserName key));
      data ← deref data;
      getAllItems_loop name rest
        (<[to_string (UserName key) := JSString (to_string (Password data))]> returnValue)
  end.

Definition getAllItems (options : JSValueObject) : M JSValueObject unit :=
  try_catch
    (let name := getSharedPreferences options in
     _ ← invoke Call_PasswordVault PasswordVault;
     allKeys ← invoke (Call_FindAllByResource (to_hstring name))
                      (FindAllByResource (to_hstring name));
     returnValue ← getAllItems_loop name allKeys ∅;
     promise_Resolve returnValue)
    (promise_Reject "cannot access datastore").

Definition isSensorAvailable : M bool unit :=
  promise_Resolve false.

Definition hasEnrolledFingerprints : M bool unit :=
  promise_Resolve false.

End Adapter.

(** ** What the adapter relies on, and what is said of a run *)

(** No platform call of a run threw. *)
Definition quiet `{Text} (tr : list Event) : Prop :=
  Forall (fun ev : Event => ev.2 = None) tr.

#[export] Instance quiet_dec `{Text} (tr : list Event) : Decision (quiet tr).
Proof. unfold quiet. apply _. Defined.

(** The method returned, and exactly one call was made on its promise. *)
Definition completed_once `{Platform} {T} (r : Run T unit) : Prop :=
  completion r = Normal tt /\ exists x, settled r = [x].

(** Well-formed text survives the trip between UTF-8 and UTF-16, either
    way. *)
Class TextLaws `{Text} : Prop := {
  to_string_to_hstring : forall s : string, to_string (to_hstring s) = s;
  to_hstring_to_string : forall h : hstring, to_hstring (to_string h) = h
}.

(** Modelled from the spec: the platform vault, which is no part of the
    repository. The spec's data model has at most one record per
    (collection name, key) pair, holding one value; adding to an existing
    pair overwrites it; a lookup finds the record or finds nothing; and
    enumerating a collection lists the records in it. [contents] reads
    these records off the platform's state, and the contract says what a
    call that returns has done to them. It promises nothing of a call that
    throws, and leaves the platform free to throw anywhere. *)
Class VaultContract `{Platform}
    (contents : Vault -> gmap (hstring * hstring) hstring) : Prop := {
  PasswordVault_returned : forall v v',
    PasswordVault v = (v', Returned tt) ->
    contents v' = contents v;
  New_PasswordCredential_returned : forall r u p v v',
    New_PasswordCredential r u p v = (v', Returned tt) ->
    contents v' = contents v;
  Retrieve_returned : forall r u v v' data,
    Retrieve r u v = (v', Returned data) ->
    contents v' = contents v /\
    data = (fun p => {| Resource := r; UserName := u; Password := p |})
             <$> contents v !! (r, u);
  Add_returned : forall c v v',
    Add c v = (v', Returned tt) ->
    contents v' = <[(Resource c, UserName c) := Password c]> (contents v);
  Remove_returned : forall c v v',
    Remove c v = (v', Returned tt) ->
    contents v' = delete (Resource c, UserName c) (contents v);
  FindAllByResource_returned : forall r v v' allKeys,
    FindAllByResource r v = (v', Returned allKeys) ->
    contents v' = contents v /\
    forall u, u ∈ UserName <$> allKeys <-> is_Some (contents v !! (r, u))
}.

(** What [getAllItems] reports under the key [k]: the value of the record
    of collection [name] whose user name is [to_hstring k], if there is
    one, as a JavaScript string. *)
Definition reported `{Platform} (contents : Vault -> gmap (hstring * hstring) hstring)
    (v : Vault) (name k : string) : option JSValue :=
  (fun p => JSString (to_string p)) <$> contents v !! (to_hstring name, to_hstring k).

Section Discipline.
Context `{Platform}.

(** A run that ended by an exception made the throwing call last, and no
    call before it threw; any other run is quiet. *)
Definition disciplined {T A} (r : Run T A) : Prop :=
  match completion r with
  | Thrown e => exists tr c, trace r = tr ++ [(c, Some e)] /\ quiet tr
  | _ => quiet (trace r)
  end.

(** A computation that never touches the promise. *)
Definition silent {T A} (m : M T A) : Prop :=
  forall v, settled (m v) = [] /\ disciplined (m v).

(** A computation that completes the promise as the last thing it does:
    once if it returns, not at all if it throws or faults. *)
Definition finishing {T} (m : M T unit) : Prop :=
  forall v,
    disciplined (m v) /\
    match completion (m v) with
    | Normal _ => exists x, settled (m v) = [x]
    | _ => settled (m v) = []
    end.

(** A computation that never calls through a null object. *)
Definition defined {T A} (m : M T A) : Prop :=
  forall v, completion (m v) <> Undefined.

End Discipline.

(** ** The footprint of a computation *)

Section Footprint.
Context `{Platform}.

(** Every platform call of every run of [m] satisfies [P]. *)
Definition calls_only {T A} (P : VaultCall -> Prop) (m : M T A) : Prop :=
  forall v, Forall (fun ev : Event => P ev.1) (trace (m v)).

(** Every call on the promise in every run of [m] satisfies [Q]. *)
Definition settles_only {T A} (Q : Settlement T -> Prop) (m : M T A) : Prop :=
  forall v, Forall Q (settled (m v)).

End Footprint.

(** ** A reference platform *)

Module Reference.

(** Text as its own encoding: both conversions are the identity. *)
#[export] Instance text : Text := {|
  hstring := string;
  to_hstring := fun s => s;
  to_string := fun h => h
|}.

(** The special values of [JSValue::AsString] on a double; a finite
    number is written as mantissa and binary exponent, where JavaScript
    prints decimal digits. Nothing below reads a double. *)
Definition ToJSString (d : spec_float) : string :=
  match d with
  | S754_nan => "NaN"
  | S754_infinity false => "Infinity"
  | S754_infinity true => "-Infinity"
  | S754_zero _ => "0"
  | S754_finite s m e =>
      (if s then "-" else "") +:+ pretty (Zpos m) +:+ "p" +:+ pretty e
  end.

(** [JSValue::AsString] as React Native for Windows documents it: a
    string is itself, null is "null", a boolean is "true" or "false", an
    integer is its decimal digits, an object or an array is the empty
    string. *)
Definition JSValue_AsString (x : JSValue) : string :=
  match x with
  | JSNull => "null"
  | JSObject _ => ""
  | JSArray _ => ""
  | JSString s => s
  | JSBoolean b => if b then "true" else "false"
  | JSInt64 n => pretty n
  | JSDouble d => ToJSString d
  end.

(** Modelled from the spec: the platform vault, which is no part of the
    repository, as a finite map from (collection name, key) to value,
    with a schedule of the failures to come: each call takes the head of
    [faults] and throws it if it is an error code. *)
Record Locker : Type := {
  records : gmap (string * string) string;
  faults : list (option hresult)
}.

Definition call {A} (f : gmap (string * string) string -> gmap (string * string) string * A)
    (l : Locker) : Locker * Outcome A :=
  match faults l with
  | Some e :: rest => ({| records := records l; faults := rest |}, Raised e)
  | None :: rest =>
      let '(m, a) := f (records l) in ({| records := m; faults := rest |}, Returned a)
  | [] =>
      let '(m, a) := f (records l) in ({| records := m; faults := [] |}, Returned a)
  end.

(** The credentials of a collection as [FindAllByResource] lists them:
    the password of a listed credential is not filled in. *)
Definition listed (r : string) (m : gmap (string * string) string) : list PasswordCredential :=
  omap (fun '((r', u), _) =>
          if decide (r' = r)
          then Some {| Resource := r; UserName := u; Password := "" |}
          else None)
       (map_to_list m).

#[export] Instance platform : Platform := {|
  AsString := JSValue_AsString;
  Vault := Locker;
  PasswordVault := call (fun m => (m, tt));
  New_PasswordCredential := fun _ _ _ => call (fun m => (m, tt));
  Retrieve := fun r u =>
    call (fun m =>
            (m, (fun p => {| Resource := r; UserName := u; Password := p |})
                  <$> m !! (r, u)));
  Add := fun c => call (fun m => (<[(Resource c, UserName c) := Password c]> m, tt));
  Remove := fun c => call (fun m => (delete (Resource c, UserName c) m, tt));
  FindAllByResource := fun r => call (fun m => (m, listed r m))
|}.

(** A vault that holds [m] and never throws. *)
Definition healthy (m : gmap (string * string) string) : Locker :=
  {| records := m; faults := [] |}.

(** An access-denied error, 0x80070005. *)
Definition E_ACCESSDENIED : hresult := (-2147024891)%Z.

(** Two records in the default collection and one in another. *)
Definition two_items : gmap (string * string) string :=
  {[ ("shared_preferences", "a") := "1";
     ("shared_preferences", "b") := "2";
     ("elsewhere", "c") := "3" ]}.

(** Options that name the collection "elsewhere". *)
Definition elsewhere : JSValueObject :=
  {[ "sharedPreferencesName" := JSString "elsewhere" ]}.

(** The listing of the default collection of [two_items]. *)
Definition two_listed : JSValueObject :=
  {[ "a" := JSString "1"; "b" := JSString "2" ]}.

End Reference.

(** * Proofs *)

(** ** How computations use the promise and the platform *)

Section DisciplineFacts.
Context `{Platform}.

Lemma quiet_nil : quiet [].
Proof. constructor. Qed.

Lemma quiet_app (tr1 tr2 : list Event) : quiet (tr1 ++ tr2) <-> quiet tr1 /\ quiet tr2.
Proof. apply Forall_app. Qed.

Lemma quiet_not_raised (tr : list Event) c e : quiet tr -> (c, Some e) ∈ tr -> False.
Proof.
  intros Hq Hin. unfold quiet in Hq. rewrite Forall_forall in Hq.
  specialize (Hq _ Hin). discriminate.
Qed.

Lemma silent_ret {T A} (a : A) : silent (T := T) (mret a).
Proof. intros v. split; [reflexivity | apply quiet_nil]. Qed.

Lemma silent_invoke {T A} c (f : Vault -> Vault * Outcome A) : silent (T := T) (invoke c f).
Proof.
  intros v. unfold invoke, disciplined.
  destruct (f v) as [v' [a | e]]; simpl; split; try reflexivity.
  - repeat constructor.
  - exists [], c. split; [reflexivity | apply quiet_nil].
Qed.

Lemma silent_deref {T A} (data : option A) : silent (T := T) (deref data).
Proof. intros v. destruct data; (split; [reflexivity | apply quiet_nil]). Qed.

Lemma disciplined_bind {T A B} (m : M T A) (k : A -> M T B) v :
  disciplined (m v) ->
  (forall a, disciplined (k a (vault_after (m v)))) ->
  disciplined ((m ≫= k) v).
Proof.
  unfold disciplined, mbind, M_bind, bind. intros Hm Hk.
  destruct (completion (m v)) as [a | e |] eqn:Hc; simpl; try assumption.
  specialize (Hk a).
  destruct (completion (k a (vault_after (m v)))) as [b | e |]; simpl.
  - apply quiet_app. by split.
  - destruct Hk as (tr & c & -> & Hq). exists (trace (m v) ++ tr), c.
    split; [by rewrite (assoc_L (++)) | apply quiet_app; by split].
  - apply quiet_app. by split.
Qed.

Lemma silent_bind {T A B} (m : M T A) (k : A -> M T B) :
  silent m -> (forall a, silent (k a)) -> silent (m ≫= k).
Proof.
  intros Hm Hk v. split.
  - unfold mbind, M_bind, bind. destruct (Hm v) as [Hs _].
    destruct (completion (m v)) as [a | e |]; simpl; try assumption.
    rewrite Hs. apply Hk.
  - apply disciplined_bind; [apply Hm | intros a; apply Hk].
Qed.

Lemma finishing_Resolve {T} (value : T) : finishing (promise_Resolve value).
Proof. intros v. split; [apply quiet_nil | by exists (Resolve value)]. Qed.

Lemma finishing_Reject {T} reason : finishing (T := T) (promise_Reject reason).
Proof. intros v. split; [apply quiet_nil | by exists (Reject reason)]. Qed.

Lemma finishing_bind {T A} (m : M T A) (k : A -> M T unit) :
  silent m -> (forall a, finishing (k a)) -> finishing (m ≫= k).
Proof.
  intros Hm Hk v. split.
  - apply disciplined_bind; [apply Hm | intros a; apply Hk].
  - unfold mbind, M_bind, bind. destruct (Hm v) as [Hs _].
    destruct (completion (m v)) as [a | e |]; simpl; try assumption.
    rewrite Hs. apply Hk.
Qed.

Lemma defined_ret {T A} (a : A) : defined (T := T) (mret a).
Proof. intros v. discriminate. Qed.

Lemma defined_invoke {T A} c (f : Vault -> Vault * Outcome A) : defined (T := T) (invoke c f).
Proof. intros v. unfold invoke. by destruct (f v) as [v' [a | e]]. Qed.

Lemma defined_Resolve {T} (value : T) : defined (promise_Resolve value).
Proof. intros v. discriminate. Qed.

Lemma defined_Reject {T} reason : defined (T := T) (promise_Reject reason).
Proof. intros v. discriminate. Qed.

Lemma defined_bind {T A B} (m : M T A) (k : A -> M T B) :
  defined m -> (forall a, defined (k a)) -> defined (m ≫= k).
Proof.
  intros Hm Hk v. unfold mbind, M_bind, bind. specialize (Hm v).
  destruct (completion (m v)) as [a | e |]; simpl; try done. apply Hk.
Qed.

End DisciplineFacts.

Create HintDb discipline discriminated.
#[export] Hint Resolve silent_ret silent_invoke silent_deref silent_bind : discipline.
#[export] Hint Resolve finishing_Resolve finishing_Reject finishing_bind : discipline.
#[export] Hint Resolve defined_ret defined_invoke defined_Resolve defined_Reject
  defined_bind : discipline.

(** Decompose a body into its calls; a [match] on a retrieved credential
    is split into its branches. *)
Ltac discipline :=
  cbv zeta;
  repeat first
    [ progress eauto with discipline
    | apply finishing_bind | apply silent_bind | apply defined_bind
    | match goal with
      | |- forall _, _ => intro
      | |- context [match ?d with Some _ => _ | None => _ end] => destruct d
      end ].

(** ** The guarded body of each method *)

Section Guarded.
Context `{Platform}.

Lemma quiet_or_raised (tr : list Event) : quiet tr \/ exists c e, (c, Some e) ∈ tr.
Proof.
  induction tr as [| [c [e |]] tr IH].
  - left. apply quiet_nil.
  - right. exists c, e. by left.
  - destruct IH as [Hq | (c' & e' & Hin)].
    + left. by constructor.
    + right. exists c', e'. by right.
Qed.

(** What [catch (...)] makes of a body that completes the promise last:
    an exception leaves exactly the handler's rejection. *)
Lemma try_catch_raised {T} (body : M T unit) reason v c e :
  finishing body ->
  (c, Some e) ∈ trace (try_catch body (promise_Reject reason) v) ->
  settled (try_catch body (promise_Reject reason) v) = [Reject reason]
  /\ completion (try_catch body (promise_Reject reason) v) = Normal tt.
Proof.
  intros Hb. destruct (Hb v) as [Hd Hs]. unfold try_catch, disciplined in *.
  destruct (completion (body v)) as [[] | e' |] eqn:Hc; simpl.
  - intros Hin. destruct (quiet_not_raised _ _ _ Hd Hin).
  - intros _. by rewrite Hs.
  - intros Hin. destruct (quiet_not_raised _ _ _ Hd Hin).
Qed.

Lemma try_catch_once {T} (body : M T unit) reason v :
  finishing body ->
  completion (body v) <> Undefined ->
  completion (try_catch body (promise_Reject reason) v) = Normal tt
  /\ exists x, settled (try_catch body (promise_Reject reason) v) = [x].
Proof.
  intros Hb Hdef. destruct (Hb v) as [_ Hs]. unfold try_catch.
  destruct (completion (body v)) as [[] | e' |] eqn:Hc; simpl.
  - by rewrite Hc.
  - rewrite Hs. eauto.
  - done.
Qed.

(** Without the null dereference a guarded method always returns, having
    completed the promise once; with it, nothing was completed. *)
Lemma try_catch_once_or_fault {T} (body : M T unit) reason v :
  finishing body ->
  completed_once (try_catch body (promise_Reject reason) v)
  \/ (completion (try_catch body (promise_Reject reason) v) = Undefined
      /\ settled (try_catch body (promise_Reject reason) v) = []).
Proof.
  intros Hb. destruct (Hb v) as [_ Hs]. unfold completed_once, try_catch.
  destruct (completion (body v)) as [[] | e' |] eqn:Hc; simpl.
  - left. by rewrite Hc.
  - left. rewrite Hs. eauto.
  - right. by rewrite Hc.
Qed.

(** A promise that was resolved was resolved by the body: no call threw. *)
Lemma try_catch_resolved_quiet {T} (body : M T unit) reason v (x : T) :
  finishing body ->
  Resolve x ∈ settled (try_catch body (promise_Reject reason) v) ->
  quiet (trace (try_catch body (promise_Reject reason) v)).
Proof.
  intros Hb Hx.
  destruct (quiet_or_raised (trace (try_catch body (promise_Reject reason) v)))
    as [Hq | (c & e & Hin)]; [assumption |].
  apply (try_catch_raised body reason v c e Hb) in Hin as [Hin _].
  rewrite Hin in Hx. apply list_elem_of_singleton in Hx. discriminate.
Qed.

(** When nothing threw, the handler did not run. *)
Lemma try_catch_quiet {T} (body : M T unit) reason v :
  finishing body ->
  quiet (trace (try_catch body (promise_Reject reason) v)) ->
  try_catch body (promise_Reject reason) v = body v.
Proof.
  intros Hb. destruct (Hb v) as [Hd _]. unfold try_catch, disciplined in *.
  destruct (completion (body v)) as [[] | e' |] eqn:Hc; simpl; try done.
  destruct Hd as (tr & c & -> & _). rewrite app_nil_r.
  intros Hq. destruct (quiet_not_raised _ c e' Hq). set_solver.
Qed.

(** One quiet platform call followed by the rest of the body. *)
Lemma invoke_bind_quiet {T A B} c (f : Vault -> Vault * Outcome A) (k : A -> M T B) v :
  quiet (trace ((invoke c f ≫= k) v)) ->
  exists v' a,
    f v = (v', Returned a)
    /\ quiet (trace (k a v'))
    /\ vault_after ((invoke c f ≫= k) v) = vault_after (k a v')
    /\ settled ((invoke c f ≫= k) v) = settled (k a v')
    /\ completion ((invoke c f ≫= k) v) = completion (k a v')
    /\ trace ((invoke c f ≫= k) v) = (c, None) :: trace (k a v').
Proof.
  unfold mbind, M_bind, bind, invoke.
  destruct (f v) as [v' [a | e]]; simpl.
  - intros Hq. apply Forall_cons in Hq as [_ Hq]. by exists v', a.
  - intros Hq. apply Forall_cons in Hq as [Hq _]. discriminate.
Qed.

Lemma getAllItems_loop_silent name allKeys returnValue :
  silent (getAllItems_loop name allKeys returnValue).
Proof.
  revert returnValue. induction allKeys as [| key rest IH]; intros returnValue; simpl.
  - apply silent_ret.
  - discipline.
Qed.

End Guarded.

#[export] Hint Resolve getAllItems_loop_silent : discipline.

(** ** The methods over a vault that keeps its contract *)

(** From a quiet run of a guarded method, the run of its body. *)
Ltac uncatch H :=
  match type of H with
  | quiet (trace (try_catch ?body (promise_Reject ?reason) ?v)) =>
      let Hfin := fresh in
      let Heq := fresh in
      assert (Hfin : finishing body) by discipline;
      pose proof (try_catch_quiet body reason v Hfin H) as Heq;
      rewrite Heq in H |- *; clear Hfin Heq
  end.

Section Contract.
Context `{Platform}.
Context (contents : Vault -> gmap (hstring * hstring) hstring).
Context `{!VaultContract contents}.

Lemma string_empty_false key : key <> "" -> string_empty key = false.
Proof. by destruct key. Qed.

Lemma bind_quiet_l {T A B} (m : M T A) (k : A -> M T B) v :
  quiet (trace ((m ≫= k) v)) -> quiet (trace (m v)).
Proof.
  unfold mbind, M_bind, bind.
  destruct (completion (m v)); simpl; try done.
  intros Hq. by apply quiet_app in Hq as [? _].
Qed.

Lemma bind_Normal {T A B} (m : M T A) (k : A -> M T B) v a :
  completion (m v) = Normal a ->
  (m ≫= k) v =
    MkRun (vault_after (k a (vault_after (m v))))
          (trace (m v) ++ trace (k a (vault_after (m v))))
          (settled (m v) ++ settled (k a (vault_after (m v))))
          (completion (k a (vault_after (m v)))).
Proof. unfold mbind, M_bind, bind. by intros ->. Qed.

Lemma getItem_quiet key options v :
  key <> "" ->
  quiet (trace (getItem key options v)) ->
  contents (vault_after (getItem key options v)) = contents v /\
  settled (getItem key options v) =
    [match contents v !! (to_hstring (getSharedPreferences options), to_hstring key) with
     | Some p => Resolve (to_string p)
     | None => Reject "key not found"
     end].
Proof.
  intros Hk%string_empty_false Hq. unfold getItem in *. rewrite Hk in *. cbv zeta in *.
  uncatch Hq.
  apply invoke_bind_quiet in Hq as (v1 & [] & E1 & Hq & -> & -> & _).
  apply invoke_bind_quiet in Hq as (v2 & data & E2 & _ & -> & -> & _).
  apply PasswordVault_returned in E1. apply Retrieve_returned in E2 as [E2 ->].
  rewrite E1 in *.
  by destruct (contents v !! _).
Qed.

Lemma setItem_quiet key value options v :
  key <> "" ->
  quiet (trace (setItem key value options v)) ->
  contents (vault_after (setItem key value options v)) =
    <[(to_hstring (getSharedPreferences options), to_hstring key) := to_hstring value]>
      (contents v) /\
  settled (setItem key value options v) = [Resolve value].
Proof.
  intros Hk%string_empty_false Hq. unfold setItem in *. rewrite Hk in *. cbv zeta in *.
  uncatch Hq.
  apply invoke_bind_quiet in Hq as (v1 & [] & E1 & Hq & -> & -> & _).
  apply invoke_bind_quiet in Hq as (v2 & [] & E2 & Hq & -> & -> & _).
  apply invoke_bind_quiet in Hq as (v3 & [] & E3 & _ & -> & -> & _).
  apply PasswordVault_returned in E1. apply New_PasswordCredential_returned in E2.
  apply Add_returned in E3. simpl in *. by rewrite E3, E2, E1.
Qed.

Lemma deleteItem_quiet key options v :
  key <> "" ->
  quiet (trace (deleteItem key options v)) ->
  match contents v !! (to_hstring (getSharedPreferences options), to_hstring key) with
  | Some _ =>
      contents (vault_after (deleteItem key options v)) =
        delete (to_hstring (getSharedPreferences options), to_hstring key) (contents v)
      /\ settled (deleteItem key options v) = [Resolve key]
  | None =>
      contents (vault_after (deleteItem key options v)) = contents v
      /\ settled (deleteItem key options v) = [Reject "key not found"]
  end.
Proof.
  intros Hk%string_empty_false Hq. unfold deleteItem in *. rewrite Hk in *. cbv zeta in *.
  uncatch Hq.
  apply invoke_bind_quiet in Hq as (v1 & [] & E1 & Hq & -> & -> & _).
  apply invoke_bind_quiet in Hq as (v2 & data & E2 & Hq & -> & -> & _).
  apply PasswordVault_returned in E1. apply Retrieve_returned in E2 as [E2 ->].
  rewrite E1 in *.
  destruct (contents v !! _) as [p |]; simpl in *; [| done].
  apply invoke_bind_quiet in Hq as (v3 & [] & E3 & _ & -> & -> & _).
  apply Remove_returned in E3. simpl in *. by rewrite E3, E2.
Qed.


Lemma getAllItems_loop_defined name allKeys returnValue v :
  (forall c, c ∈ allKeys -> is_Some (contents v !! (to_hstring name, UserName c))) ->
  completion (getAllItems_loop name allKeys returnValue v) <> Undefined.
Proof.
  revert returnValue v. induction allKeys as [| key rest IH]; intros returnValue v Hin; simpl.
  - discriminate.
  - unfold mbind, M_bind, bind, invoke.
    destruct (Retrieve _ _ v) as [v1 [data | e]] eqn:E; simpl; [| discriminate].
    apply Retrieve_returned in E as [E ->].
    destruct (Hin key) as [p ->]; [by left |]. simpl.
    apply IH. intros c Hc. rewrite E. apply Hin. by right.
Qed.

Lemma getAllItems_loop_quiet `{!TextLaws} name allKeys returnValue v :
  (forall c, c ∈ allKeys -> is_Some (contents v !! (to_hstring name, UserName c))) ->
  quiet (trace (getAllItems_loop name allKeys returnValue v)) ->
  contents (vault_after (getAllItems_loop name allKeys returnValue v)) = contents v
  /\ exists m,
       completion (getAllItems_loop name allKeys returnValue v) = Normal m
       /\ forall k, m !! k =
            if decide (to_hstring k ∈ UserName <$> allKeys)
            then reported contents v name k
            else returnValue !! k.
Proof.
  revert returnValue v. induction allKeys as [| key rest IH]; intros returnValue v Hin Hq.
  - split; [reflexivity |]. exists returnValue. split; [reflexivity |].
    intros k. rewrite decide_False; [reflexivity | apply not_elem_of_nil].
  - cbn [getAllItems_loop] in *.
    apply invoke_bind_quiet in Hq as (v1 & data & E & Hq & -> & _ & -> & _).
    apply Retrieve_returned in E as [E ->].
    destruct (Hin key) as [p Hp]; [by left |]. rewrite Hp in *. simpl in *.
    destruct (IH (<[to_string (UserName key) := JSString (to_string p)]> returnValue) v1)
      as [Hc (m & Hm & Hlook)]; [| assumption |].
    { intros c Hc. rewrite E. apply Hin. by right. }
    split; [by rewrite Hc |]. exists m. split; [assumption |].
    intros k. rewrite Hlook. unfold reported. rewrite E.
    destruct (decide (to_hstring k ∈ UserName <$> rest)) as [Hrest | Hrest].
    + rewrite decide_True; [reflexivity | by right].
    + destruct (decide (to_hstring k = UserName key)) as [Heq | Hne].
      * rewrite decide_True by (rewrite Heq; by left).
        rewrite <- Heq in *. by rewrite to_string_to_hstring, lookup_insert_eq, Hp.
      * rewrite decide_False by (by intros [? | ?]%elem_of_cons).
        apply lookup_insert_ne. intros Hk. apply Hne.
        by rewrite <- Hk, to_hstring_to_string.
Qed.

Lemma getAllItems_defined options v :
  completion (getAllItems options v) = Normal tt
  /\ exists x, settled (getAllItems options v) = [x].
Proof.
  unfold getAllItems. apply try_catch_once; [discipline |]. cbv zeta.
  unfold mbind, M_bind, bind, invoke.
  destruct (PasswordVault v) as [v1 [[] | e]] eqn:E1; simpl; [| discriminate].
  destruct (FindAllByResource _ v1) as [v2 [allKeys | e]] eqn:E2; simpl; [| discriminate].
  apply FindAllByResource_returned in E2 as [E2 Hall].
  pose proof (getAllItems_loop_defined (getSharedPreferences options) allKeys ∅ v2) as Hdef.
  destruct (completion (getAllItems_loop _ allKeys ∅ v2)); simpl; try discriminate.
  intros _. apply Hdef; [| reflexivity].
  intros c Hc. rewrite E2. apply Hall. by apply list_elem_of_fmap_2.
Qed.

Lemma getAllItems_quiet `{!TextLaws} options v :
  quiet (trace (getAllItems options v)) ->
  contents (vault_after (getAllItems options v)) = contents v
  /\ exists m,
       settled (getAllItems options v) = [Resolve m]
       /\ forall k, m !! k = reported contents v (getSharedPreferences options) k.
Proof.
  intros Hq. unfold getAllItems in *. cbv zeta in *. uncatch Hq.
  apply invoke_bind_quiet in Hq as (v1 & [] & E1 & Hq & -> & -> & _).
  apply invoke_bind_quiet in Hq as (v2 & allKeys & E2 & Hq & -> & -> & _).
  apply PasswordVault_returned in E1.
  apply FindAllByResource_returned in E2 as [E2 Hall].
  destruct (getAllItems_loop_quiet (getSharedPreferences options) allKeys ∅ v2)
    as [Hc (m & Hm & Hlook)].
  { intros c Hc. rewrite E2. apply Hall. by apply list_elem_of_fmap_2. }
  { by apply bind_quiet_l in Hq. }
  rewrite (bind_Normal _ _ _ _ Hm). simpl.
  destruct (getAllItems_loop_silent (getSharedPreferences options) allKeys ∅ v2) as [-> _].
  split; [by rewrite Hc, E2, E1 |]. exists m. split; [reflexivity |].
  intros k. rewrite Hlook. unfold reported. rewrite E2, E1.
  case_decide as Hk; [reflexivity |].
  rewrite lookup_empty. rewrite Hall, E1 in Hk.
  apply eq_None_not_Some in Hk. by rewrite Hk.
Qed.

End Contract.

(** ** The reference platform keeps the contract *)

Section ReferenceFacts.
Import Reference.

Lemma call_returned {A} (f : gmap (string * string) string -> gmap (string * string) string * A)
    l l' a :
  call f l = (l', Returned a) -> f (records l) = (records l', a).
Proof.
  unfold call. destruct (faults l) as [| [e |] rest]; destruct (f (records l)) as [m b];
    intros [= <- <-]; reflexivity.
Qed.

Lemma elem_of_listed r m u :
  u ∈ UserName <$> listed r m <-> is_Some (m !! (r, u)).
Proof.
  unfold listed. rewrite list_elem_of_fmap. split.
  - intros (c & -> & Hc). apply list_elem_of_omap in Hc as ([[r' u'] p] & Hin & Hc).
    destruct (decide (r' = r)) as [-> |]; [| discriminate].
    injection Hc as <-. simpl. apply elem_of_map_to_list in Hin. by exists p.
  - intros [p Hp]. exists (@Build_PasswordCredential text r u "").
    split; [reflexivity |]. apply list_elem_of_omap. exists ((r, u), p).
    split; [by apply elem_of_map_to_list |]. by rewrite decide_True.
Qed.

Lemma reference_text_laws : TextLaws.
Proof. by split. Qed.

Lemma reference_contract : VaultContract records.
Proof.
  split; simpl.
  - intros v v' Hc. apply call_returned in Hc. by injection Hc as <-.
  - intros _ _ _ v v' Hc. apply call_returned in Hc. by injection Hc as <-.
  - intros r u v v' data Hc. apply call_returned in Hc. by injection Hc as <- <-.
  - intros c v v' Hc. apply call_returned in Hc. by injection Hc as <-.
  - intros c v v' Hc. apply call_returned in Hc. by injection Hc as <-.
  - intros r v v' allKeys Hc. apply call_returned in Hc. injection Hc as <- <-.
    split; [reflexivity |]. intros u. apply elem_of_listed.
Qed.

End ReferenceFacts.

(** ** What holds over every platform *)

Section AnyPlatform.
Context `{Platform}.

(** C1: getItem, setItem and deleteItem, given the empty key and any
    options, reject the promise with exactly "key is empty" and reach the
    platform not at all: the trace of platform calls is empty (no lookup,
    add or remove) and the vault is the one the method was given. *)
Theorem empty_key_rejected_before_vault (value : string) (options : JSValueObject) (v : Vault) :
  getItem "" options v = MkRun v [] [Reject "key is empty"] (Normal tt)
  /\ setItem "" value options v = MkRun v [] [Reject "key is empty"] (Normal tt)
  /\ deleteItem "" options v = MkRun v [] [Reject "key is empty"] (Normal tt).
Proof.
  unfold getItem, setItem, deleteItem. cbn [string_empty].
  unfold promise_Reject. by repeat split.
Qed.

(** C9: isSensorAvailable and hasEnrolledFingerprints resolve with false
    from every vault state, make no platform call, and never reject. *)
Theorem sensor_probes_resolve_false (v : Vault) :
  isSensorAvailable v = MkRun v [] [Resolve false] (Normal tt)
  /\ hasEnrolledFingerprints v = MkRun v [] [Resolve false] (Normal tt).
Proof.
  unfold isSensorAvailable, hasEnrolledFingerprints, promise_Resolve. by split.
Qed.

(** The platform calls of a setItem in which nothing threw. *)
Lemma setItem_quiet_trace key value options v :
  key <> "" ->
  quiet (trace (setItem key value options v)) ->
  settled (setItem key value options v) = [Resolve value]
  /\ trace (setItem key value options v) =
       let name := to_hstring (getSharedPreferences options) in
       [(Call_PasswordVault, None);
        (Call_PasswordCredential name (to_hstring key) (to_hstring value), None);
        (Call_Add {| Resource := name; UserName := to_hstring key;
                     Password := to_hstring value |}, None)].
Proof.
  intros Hk%string_empty_false Hq. unfold setItem in *. rewrite Hk in *. cbv zeta in *.
  uncatch Hq.
  apply invoke_bind_quiet in Hq as (v1 & [] & _ & Hq & _ & -> & _ & ->).
  apply invoke_bind_quiet in Hq as (v2 & [] & _ & Hq & _ & -> & _ & ->).
  apply invoke_bind_quiet in Hq as (v3 & [] & _ & Hq & _ & -> & _ & ->).
  by split.
Qed.

(** C8: for a non-empty key, a setItem in which no platform call throws
    resolves with the value argument; and whenever setItem resolves, it
    resolves with exactly that argument, after three platform calls
    (the vault, the credential, Add) of which none reads the vault back. *)
Theorem setItem_echoes_value key value options v :
  key <> "" ->
  (quiet (trace (setItem key value options v)) ->
   settled (setItem key value options v) = [Resolve value])
  /\ (forall x, Resolve x ∈ settled (setItem key value options v) ->
      x = value
      /\ trace (setItem key value options v) =
           let name := to_hstring (getSharedPreferences options) in
           [(Call_PasswordVault, None);
            (Call_PasswordCredential name (to_hstring key) (to_hstring value), None);
            (Call_Add {| Resource := name; UserName := to_hstring key;
                         Password := to_hstring value |}, None)]).
Proof.
  intros Hk. split.
  - intros Hq. by apply setItem_quiet_trace.
  - intros x Hx.
    assert (Hq : quiet (trace (setItem key value options v))).
    { pose proof (string_empty_false _ Hk) as Hne. unfold setItem in *.
      rewrite Hne in *. eapply try_catch_resolved_quiet; [discipline | exact Hx]. }
    destruct (setItem_quiet_trace key value options v Hk Hq) as [Hs Ht].
    rewrite Hs in Hx. apply list_elem_of_singleton in Hx. by injection Hx as ->.
Qed.

(** C6: in getItem, setItem, deleteItem and getAllItems, if any platform
    call [c] of the run threw any exception [e], the promise received
    exactly one call, the rejection "cannot access datastore": nothing was
    resolved, and a getAllItems that fails in its loop delivers none of
    the pairs it had gathered. *)
Theorem vault_exception_rejects key value options v c e :
  ((c, Some e) ∈ trace (getItem key options v) ->
   settled (getItem key options v) = [Reject "cannot access datastore"])
  /\ ((c, Some e) ∈ trace (setItem key value options v) ->
      settled (setItem key value options v) = [Reject "cannot access datastore"])
  /\ ((c, Some e) ∈ trace (deleteItem key options v) ->
      settled (deleteItem key options v) = [Reject "cannot access datastore"])
  /\ ((c, Some e) ∈ trace (getAllItems options v) ->
      settled (getAllItems options v) = [Reject "cannot access datastore"]).
Proof.
  unfold getItem, setItem, deleteItem, getAllItems.
  repeat split; intros Hin;
    (destruct (string_empty key);
       [by apply not_elem_of_nil in Hin |]) || idtac;
    (eapply try_catch_raised; [discipline | exact Hin]).
Qed.

(** C10: every method returns having made exactly one call, Resolve or
    Reject, on its promise. For getItem, setItem, deleteItem and the two
    probes this holds over every platform. getAllItems calls Password on
    each credential it retrieves without testing it for null: over every
    platform it completes the promise once or stops at a null credential
    having completed nothing, and over a vault that keeps its contract
    (every enumerated credential can be retrieved) it completes once. *)
Theorem promise_completed_exactly_once key value options v :
  completed_once (getItem key options v)
  /\ completed_once (setItem key value options v)
  /\ completed_once (deleteItem key options v)
  /\ completed_once (isSensorAvailable v)
  /\ completed_once (hasEnrolledFingerprints v)
  /\ (completed_once (getAllItems options v)
      \/ (completion (getAllItems options v) = Undefined
          /\ settled (getAllItems options v) = []))
  /\ (forall contents, VaultContract contents -> completed_once (getAllItems options v)).
Proof.
  assert (Hkeyed : forall (body : M string unit) reason,
            finishing body -> defined body ->
            completed_once
              ((if string_empty key then promise_Reject "key is empty"
                else try_catch body (promise_Reject reason)) v)).
  { intros body reason Hfin Hdef. destruct (string_empty key).
    - split; [reflexivity | by eexists].
    - apply try_catch_once; [assumption | apply Hdef]. }
  split; [apply Hkeyed; discipline |].
  split; [apply Hkeyed; discipline |].
  split; [apply Hkeyed; discipline |].
  split; [split; [reflexivity | by eexists] |].
  split; [split; [reflexivity | by eexists] |].
  split; [apply try_catch_once_or_fault; discipline |].
  intros contents Hcontract. by apply (getAllItems_defined contents).
Qed.

End AnyPlatform.

Section Options.
Context `{Platform}.

(** C7 (amended): resolving the collection name is a total function of the
    options and cannot fail. With the field sharedPreferencesName absent
    the name is the literal "shared_preferences", and every method runs
    exactly as with that literal passed as a string (AsString returning
    that string unchanged). With the field present the name is the
    field's AsString conversion, whatever its type: a value that is no
    string is converted, not replaced by the default. The options reach a
    method through the resolved name only: a method given any options runs
    exactly as it does given any other options that resolve to the same
    name, so options are never rejected as such. *)
Theorem collection_name_resolution key value options options' field v :
  (options !! "sharedPreferencesName" = None ->
   getSharedPreferences options = "shared_preferences")
  /\ (options !! "sharedPreferencesName" = Some field ->
      getSharedPreferences options = AsString field)
  /\ (getSharedPreferences options' = getSharedPreferences options ->
      getItem key options' v = getItem key options v
      /\ setItem key value options' v = setItem key value options v
      /\ deleteItem key options' v = deleteItem key options v
      /\ getAllItems options' v = getAllItems options v)
  /\ (options !! "sharedPreferencesName" = None ->
      AsString (JSString "shared_preferences") = "shared_preferences" ->
      let explicit := <["sharedPreferencesName" := JSString "shared_preferences"]> options in
      getItem key options v = getItem key explicit v
      /\ setItem key value options v = setItem key value explicit v
      /\ deleteItem key options v = deleteItem key explicit v
      /\ getAllItems options v = getAllItems explicit v).
Proof.
  assert (Hname : forall o o', getSharedPreferences o' = getSharedPreferences o ->
            getItem key o' v = getItem key o v
            /\ setItem key value o' v = setItem key value o v
            /\ deleteItem key o' v = deleteItem key o v
            /\ getAllItems o' v = getAllItems o v).
  { intros o o' Heq. unfold getItem, setItem, deleteItem, getAllItems.
    by rewrite Heq. }
  split; [| split; [| split]].
  - unfold getSharedPreferences. by intros ->.
  - unfold getSharedPreferences. by intros ->.
  - apply Hname.
  - intros Habsent Hstring explicit. apply Hname.
    unfold getSharedPreferences, explicit.
    by rewrite lookup_insert_eq, Habsent, Hstring.
Qed.

End Options.

(** ** What holds over a vault that keeps its contract *)

Section OverContract.
Context `{Platform}.
Context (contents : Vault -> gmap (hstring * hstring) hstring).
Context `{!VaultContract contents}.

(** C2: for a non-empty key and a value that survives the text
    conversions, after a setItem that resolved, a getItem of the same key
    in the same collection in which no platform call throws resolves with
    exactly the value that was set; so after two setItems of one key, the
    second of which resolved, getItem resolves with the second value. *)
Theorem setItem_then_getItem key value earlier options options' v :
  key <> "" ->
  to_string (to_hstring value) = value ->
  getSharedPreferences options' = getSharedPreferences options ->
  (let v1 := vault_after (setItem key value options v) in
   Resolve value ∈ settled (setItem key value options v) ->
   quiet (trace (getItem key options' v1)) ->
   settled (getItem key options' v1) = [Resolve value])
  /\ (let v1 := vault_after (setItem key earlier options v) in
      let v2 := vault_after (setItem key value options v1) in
      Resolve value ∈ settled (setItem key value options v1) ->
      quiet (trace (getItem key options' v2)) ->
      settled (getItem key options' v2) = [Resolve value]).
Proof.
  intros Hk Hvalue Hname.
  assert (Hround : forall v0,
            Resolve value ∈ settled (setItem key value options v0) ->
            quiet (trace (getItem key options' (vault_after (setItem key value options v0)))) ->
            settled (getItem key options' (vault_after (setItem key value options v0)))
              = [Resolve value]).
  { intros v0 Hset Hget.
    assert (Hq : quiet (trace (setItem key value options v0))).
    { pose proof (string_empty_false _ Hk) as Hne. unfold setItem in *.
      rewrite Hne in *. eapply try_catch_resolved_quiet; [discipline | exact Hset]. }
    destruct (setItem_quiet contents key value options v0 Hk Hq) as [Hc _].
    destruct (getItem_quiet contents key options' _ Hk Hget) as [_ ->].
    by rewrite Hc, Hname, lookup_insert_eq, Hvalue. }
  split; [apply Hround |]. intros v1 v2. apply Hround.
Qed.

(** C3: for a non-empty key with no record in the resolved collection, a
    getItem in which no platform call throws rejects with exactly
    "key not found". *)
Theorem getItem_absent_key key options v :
  key <> "" ->
  contents v !! (to_hstring (getSharedPreferences options), to_hstring key) = None ->
  quiet (trace (getItem key options v)) ->
  settled (getItem key options v) = [Reject "key not found"].
Proof.
  intros Hk Habsent Hq.
  destruct (getItem_quiet contents key options v Hk Hq) as [_ ->].
  by rewrite Habsent.
Qed.

(** C4: for a non-empty key and a deleteItem in which no platform call
    throws: with no record under the key in the resolved collection it
    rejects with exactly "key not found"; with a record it resolves with
    the key it was given and removes that record and no other, so that a
    following getItem of the key in that collection, if no call throws,
    rejects with "key not found". *)
Theorem deleteItem_absent_and_present key options options' v :
  key <> "" ->
  quiet (trace (deleteItem key options v)) ->
  let record := (to_hstring (getSharedPreferences options), to_hstring key) in
  (contents v !! record = None ->
   settled (deleteItem key options v) = [Reject "key not found"])
  /\ (is_Some (contents v !! record) ->
      settled (deleteItem key options v) = [Resolve key]
      /\ contents (vault_after (deleteItem key options v)) = delete record (contents v)
      /\ (getSharedPreferences options' = getSharedPreferences options ->
          quiet (trace (getItem key options' (vault_after (deleteItem key options v)))) ->
          settled (getItem key options' (vault_after (deleteItem key options v)))
            = [Reject "key not found"])).
Proof.
  intros Hk Hq record.
  pose proof (deleteItem_quiet contents key options v Hk Hq) as Hdel.
  fold record in Hdel. split.
  - intros Habsent. rewrite Habsent in Hdel. apply Hdel.
  - intros [p Hp]. rewrite Hp in Hdel. destruct Hdel as [Hc Hs].
    split; [assumption |]. split; [assumption |].
    intros Hname Hget.
    destruct (getItem_quiet contents key options' _ Hk Hget) as [_ ->].
    by rewrite Hc, Hname, lookup_delete_eq.
Qed.

(** C5: a getAllItems in which no platform call throws resolves with a
    mapping that holds, under each key, the value of the record of the
    resolved collection under that key and nothing else: a key with a
    record maps to its value as a string, a key with none is not in the
    mapping. Over a collection with no record the mapping is empty. *)
Theorem getAllItems_exact `{!TextLaws} options v :
  quiet (trace (getAllItems options v)) ->
  exists m : JSValueObject,
    settled (getAllItems options v) = [Resolve m]
    /\ (forall k, m !! k =
          (fun p => JSString (to_string p))
            <$> contents v !! (to_hstring (getSharedPreferences options), to_hstring k))
    /\ ((forall u, contents v !! (to_hstring (getSharedPreferences options), u) = None) ->
        m = ∅).
Proof.
  intros Hq. destruct (getAllItems_quiet contents options v Hq) as [_ (m & Hs & Hm)].
  exists m. split; [assumption |]. split; [exact Hm |].
  intros Hunused. apply map_eq. intros k.
  by rewrite Hm, lookup_empty; unfold reported; rewrite Hunused.
Qed.

End OverContract.

(** ** The theorems at work on the reference platform *)

Section OnReference.
Import Reference.

(** Evaluate a run on the reference platform and read the result off. *)
Ltac evaluate := vm_compute; repeat constructor.

(** A setItem of "token" into an empty vault that never throws. *)
Lemma setItem_echoes_value_witness :
  settled (setItem "token" "s3cret" ∅ (healthy ∅)) = [Resolve "s3cret"]
  /\ trace (setItem "token" "s3cret" ∅ (healthy ∅)) =
       [(Call_PasswordVault, None);
        (Call_PasswordCredential "shared_preferences" "token" "s3cret", None);
        (Call_Add {| Resource := "shared_preferences"; UserName := "token";
                     Password := "s3cret" |}, None)].
Proof.
  destruct (@setItem_echoes_value _ platform "token" "s3cret" ∅ (healthy ∅))
    as [Hquiet Hresolved]; [discriminate |].
  split.
  - apply Hquiet. evaluate.
  - apply (Hresolved "s3cret"). evaluate.
Defined.

(** Access denied at Retrieve, at Add, at Remove, and at the second
    Retrieve of the loop of getAllItems, after the first pair was read. *)
Lemma vault_exception_rejects_witness :
  settled (getItem "token" ∅ {| records := ∅; faults := [None; Some E_ACCESSDENIED] |})
    = [Reject "cannot access datastore"]
  /\ settled (setItem "token" "s3cret" ∅
                {| records := ∅; faults := [None; None; Some E_ACCESSDENIED] |})
       = [Reject "cannot access datastore"]
  /\ settled (deleteItem "a" ∅
                {| records := two_items; faults := [None; None; Some E_ACCESSDENIED] |})
       = [Reject "cannot access datastore"]
  /\ settled (getAllItems ∅
                {| records := two_items; faults := [None; None; None; Some E_ACCESSDENIED] |})
       = [Reject "cannot access datastore"].
Proof.
  split; [| split; [| split]].
  - apply (@vault_exception_rejects _ platform "token" "" ∅ _
             (@Call_Retrieve text "shared_preferences" "token") E_ACCESSDENIED).
    evaluate.
  - apply (@vault_exception_rejects _ platform "token" "s3cret" ∅ _
             (Call_Add (@Build_PasswordCredential text "shared_preferences" "token" "s3cret"))
             E_ACCESSDENIED).
    evaluate.
  - apply (@vault_exception_rejects _ platform "a" "" ∅ _
             (Call_Remove (@Build_PasswordCredential text "shared_preferences" "a" "1"))
             E_ACCESSDENIED).
    evaluate.
  - apply (@vault_exception_rejects _ platform "" "" ∅ _
             (@Call_Retrieve text "shared_preferences" "b") E_ACCESSDENIED).
    evaluate.
Defined.

(** The reference vault keeps the contract, so getAllItems completes. *)
Lemma promise_completed_exactly_once_witness :
  completed_once (getAllItems ∅ (healthy two_items)).
Proof.
  apply (@promise_completed_exactly_once _ platform "" "" ∅ (healthy two_items))
    with records.
  apply reference_contract.
Defined.

(** C7, as stated, fails: a sharedPreferencesName that is the boolean true
    names the collection "true", not the default one. A secret stored in
    the default collection is found with the field absent and not found
    with the field mistyped. *)
Lemma mistyped_name_is_not_default :
  getSharedPreferences {[ "sharedPreferencesName" := JSBoolean true ]} = "true"
  /\ settled (getItem "token" ∅
                (healthy {[ ("shared_preferences", "token") := "s3cret" ]}))
       = [Resolve "s3cret"]
  /\ settled (getItem "token" {[ "sharedPreferencesName" := JSBoolean true ]}
                (healthy {[ ("shared_preferences", "token") := "s3cret" ]}))
       = [Reject "key not found"].
Proof. by vm_compute. Qed.

(** No field, an integer field, and the default name passed as a string. *)
Lemma collection_name_resolution_witness :
  getSharedPreferences ∅ = "shared_preferences"
  /\ getSharedPreferences {[ "sharedPreferencesName" := JSInt64 42 ]} = "42"
  /\ getItem "token" {[ "sharedPreferencesName" := JSString "shared_preferences" ]}
       (healthy two_items) = getItem "token" ∅ (healthy two_items)
  /\ getAllItems ∅ (healthy two_items) =
       getAllItems (<["sharedPreferencesName" := JSString "shared_preferences"]> ∅)
         (healthy two_items).
Proof.
  destruct (@collection_name_resolution _ platform "token" "" ∅
              {[ "sharedPreferencesName" := JSString "shared_preferences" ]} JSNull
              (healthy two_items))
    as (Habsent & _ & Hsame & Hexplicit).
  destruct (@collection_name_resolution _ platform "token" ""
              {[ "sharedPreferencesName" := JSInt64 42 ]} ∅ (JSInt64 42)
              (healthy two_items))
    as (_ & Hpresent & _).
  split; [| split; [| split]].
  - apply Habsent. vm_compute. reflexivity.
  - apply Hpresent. vm_compute. reflexivity.
  - apply Hsame. vm_compute. reflexivity.
  - apply Hexplicit; vm_compute; reflexivity.
Defined.

(** Set once and set twice, then read through options that name the
    default collection explicitly. *)
Lemma setItem_then_getItem_witness :
  settled (getItem "token" {[ "sharedPreferencesName" := JSString "shared_preferences" ]}
             (vault_after (setItem "token" "s3cret" ∅ (healthy ∅))))
    = [Resolve "s3cret"]
  /\ settled (getItem "token" {[ "sharedPreferencesName" := JSString "shared_preferences" ]}
                (vault_after (setItem "token" "s3cret" ∅
                   (vault_after (setItem "token" "old" ∅ (healthy ∅))))))
       = [Resolve "s3cret"].
Proof.
  destruct (@setItem_then_getItem _ platform records reference_contract
              "token" "s3cret" "old" ∅
              {[ "sharedPreferencesName" := JSString "shared_preferences" ]} (healthy ∅))
    as [Hone Htwo]; [discriminate | reflexivity | reflexivity |].
  split; [apply Hone | apply Htwo]; evaluate.
Defined.

(** "token" is not among the two items. *)
Lemma getItem_absent_key_witness :
  settled (getItem "token" ∅ (healthy two_items)) = [Reject "key not found"].
Proof.
  apply (@getItem_absent_key _ platform records reference_contract
           "token" ∅ (healthy two_items));
    [discriminate | by vm_compute | evaluate].
Defined.

(** Deleting "token", which is absent, and "a", which is present. *)
Lemma deleteItem_absent_and_present_witness :
  settled (deleteItem "token" ∅ (healthy two_items)) = [Reject "key not found"]
  /\ settled (deleteItem "a" ∅ (healthy two_items)) = [Resolve "a"]
  /\ settled (getItem "a" ∅ (vault_after (deleteItem "a" ∅ (healthy two_items))))
       = [Reject "key not found"].
Proof.
  split.
  - apply (@deleteItem_absent_and_present _ platform records reference_contract
             "token" ∅ ∅ (healthy two_items));
      [discriminate | evaluate | by vm_compute].
  - destruct (@deleteItem_absent_and_present _ platform records reference_contract
                "a" ∅ ∅ (healthy two_items))
      as [_ Hpresent]; [discriminate | evaluate |].
    destruct Hpresent as (Hresolved & _ & Hgone); [vm_compute; by eexists |].
    split; [exact Hresolved | apply Hgone; [reflexivity | evaluate]].
Defined.

(** The two items of the default collection, and not the third. *)
Lemma getAllItems_exact_witness :
  exists m : JSValueObject,
    settled (getAllItems ∅ (healthy two_items)) = [Resolve m]
    /\ m !! "a" = Some (JSString "1")
    /\ m !! "b" = Some (JSString "2")
    /\ m !! "c" = None.
Proof.
  destruct (@getAllItems_exact _ platform records reference_contract reference_text_laws
              ∅ (healthy two_items))
    as (m & Hm & Hpairs & _); [evaluate |].
  exists m. split; [exact Hm |]. rewrite !Hpairs. vm_compute. by repeat split.
Defined.

End OnReference.

(** * Further properties of the methods *)

(** ** The footprint of a method, piece by piece *)

Section Calls.
Context `{Platform}.

Lemma calls_only_ret {T A} P (a : A) : calls_only (T := T) P (mret a).
Proof. intros v. constructor. Qed.

Lemma calls_only_invoke {T A} (P : VaultCall -> Prop) c (f : Vault -> Vault * Outcome A) :
  P c -> calls_only (T := T) P (invoke c f).
Proof.
  intros Hc v. unfold invoke. destruct (f v) as [v' [a | e]]; by repeat constructor.
Qed.

Lemma calls_only_deref {T A} P (data : option A) : calls_only (T := T) P (deref data).
Proof. intros v. destruct data; constructor. Qed.

Lemma calls_only_Resolve {T} P (value : T) : calls_only P (promise_Resolve value).
Proof. intros v. constructor. Qed.

Lemma calls_only_Reject {T} P reason : calls_only (T := T) P (promise_Reject reason).
Proof. intros v. constructor. Qed.

Lemma calls_only_bind {T A B} P (m : M T A) (k : A -> M T B) :
  calls_only P m -> (forall a, calls_only P (k a)) -> calls_only P (m ≫= k).
Proof.
  intros Hm Hk v. unfold mbind, M_bind, bind. specialize (Hm v).
  destruct (completion (m v)) as [a | e |]; simpl; try assumption.
  apply Forall_app. split; [assumption | apply Hk].
Qed.

Lemma calls_only_try_catch {T} P (body handler : M T unit) :
  calls_only P body -> calls_only P handler -> calls_only P (try_catch body handler).
Proof.
  intros Hb Hh v. unfold try_catch. specialize (Hb v).
  destruct (completion (body v)) as [a | e |]; simpl; try assumption.
  apply Forall_app. split; [assumption | apply Hh].
Qed.

Lemma settles_only_silent {T A} Q (m : M T A) : silent m -> settles_only Q m.
Proof. intros Hm v. destruct (Hm v) as [-> _]. constructor. Qed.

Lemma settles_only_Resolve {T} (Q : Settlement T -> Prop) (value : T) :
  Q (Resolve value) -> settles_only Q (promise_Resolve value).
Proof. intros HQ v. by repeat constructor. Qed.

Lemma settles_only_Reject {T} (Q : Settlement T -> Prop) reason :
  Q (Reject reason) -> settles_only Q (promise_Reject (T := T) reason).
Proof. intros HQ v. by repeat constructor. Qed.

Lemma settles_only_bind {T A B} Q (m : M T A) (k : A -> M T B) :
  settles_only Q m -> (forall a, settles_only Q (k a)) -> settles_only Q (m ≫= k).
Proof.
  intros Hm Hk v. unfold mbind, M_bind, bind. specialize (Hm v).
  destruct (completion (m v)) as [a | e |]; simpl; try assumption.
  apply Forall_app. split; [assumption | apply Hk].
Qed.

Lemma settles_only_try_catch {T} Q (body handler : M T unit) :
  settles_only Q body -> settles_only Q handler -> settles_only Q (try_catch body handler).
Proof.
  intros Hb Hh v. unfold try_catch. specialize (Hb v).
  destruct (completion (body v)) as [a | e |]; simpl; try assumption.
  apply Forall_app. split; [assumption | apply Hh].
Qed.

End Calls.

Create HintDb calls discriminated.
#[export] Hint Resolve calls_only_ret calls_only_deref calls_only_Resolve calls_only_Reject
  calls_only_bind calls_only_try_catch : calls.

(** Decompose a method into its calls and check each against the
    predicate. *)
Ltac calls :=
  cbv zeta;
  repeat first
    [ progress eauto with calls
    | apply calls_only_try_catch | apply calls_only_bind | apply calls_only_invoke
    | match goal with
      | |- forall _, _ => intro
      | |- context [match ?d with Some _ => _ | None => _ end] => destruct d
      | |- context [if ?b then _ else _] => destruct b
      end ].

(** Decompose a method into its calls on the promise; what remains is
    to check each settlement against the predicate. *)
Ltac settles :=
  cbv zeta;
  repeat first
    [ apply settles_only_silent; solve [discipline]
    | apply settles_only_try_catch | apply settles_only_bind
    | apply settles_only_Resolve | apply settles_only_Reject
    | match goal with
      | |- forall _, _ => intro
      | |- context [match ?d with Some _ => _ | None => _ end] => destruct d
      | |- context [if ?b then _ else _] => destruct b
      end ].

(** ** Further properties over every platform *)

Section FurtherAnyPlatform.
Context `{Platform}.

Lemma getAllItems_loop_calls name allKeys returnValue :
  calls_only (fun c => exists u, c = Call_Retrieve (to_hstring name) u)
    (getAllItems_loop name allKeys returnValue).
Proof.
  revert returnValue. induction allKeys as [| key rest IH]; intros returnValue;
    cbn [getAllItems_loop].
  - apply calls_only_ret.
  - apply calls_only_bind; [apply calls_only_invoke; by eexists |].
    intros data. apply calls_only_bind; [apply calls_only_deref |]. intros data'. apply IH.
Qed.

Lemma calls_only_weaken {T A} (P Q : VaultCall -> Prop) (m : M T A) :
  (forall c, P c -> Q c) -> calls_only P m -> calls_only Q m.
Proof. intros HPQ Hm v. eapply Forall_impl; [apply Hm | intros ev; apply HPQ]. Qed.

(** X5: the reading methods never write, whatever the platform does
    and however the run ends. getItem calls nothing but the vault's
    constructor and Retrieve for its own collection and key; getAllItems
    calls nothing but the constructor, FindAllByResource and Retrieve for
    its own collection. Neither calls Add or Remove. *)
Theorem read_methods_only_read key options v :
  Forall (fun ev : Event =>
            ev.1 = Call_PasswordVault
            \/ ev.1 = Call_Retrieve (to_hstring (getSharedPreferences options))
                                    (to_hstring key))
         (trace (getItem key options v))
  /\ Forall (fun ev : Event =>
               ev.1 = Call_PasswordVault
               \/ ev.1 = Call_FindAllByResource (to_hstring (getSharedPreferences options))
               \/ exists u,
                    ev.1 = Call_Retrieve (to_hstring (getSharedPreferences options)) u)
            (trace (getAllItems options v)).
Proof.
  split; revert v.
  - change (calls_only
              (fun c => c = Call_PasswordVault
                        \/ c = Call_Retrieve (to_hstring (getSharedPreferences options))
                                             (to_hstring key))
              (getItem key options)).
    unfold getItem. calls; auto.
  - change (calls_only
              (fun c => c = Call_PasswordVault
                        \/ c = Call_FindAllByResource
                                 (to_hstring (getSharedPreferences options))
                        \/ exists u,
                             c = Call_Retrieve (to_hstring (getSharedPreferences options)) u)
              (getAllItems options)).
    unfold getAllItems.
    apply calls_only_try_catch; [| apply calls_only_Reject]. cbv zeta.
    apply calls_only_bind; [apply calls_only_invoke; auto |]. intros _.
    apply calls_only_bind; [apply calls_only_invoke; auto |]. intros allKeys.
    apply calls_only_bind; [| intros; apply calls_only_Resolve].
    eapply calls_only_weaken; [| apply getAllItems_loop_calls]. auto.
Qed.


(** X6: the writing methods touch their own record only, whatever the
    platform does. setItem calls nothing but the vault's constructor, the
    credential's constructor and Add, each with its own collection, key
    and value; it never reads or removes. deleteItem calls nothing but
    the constructor, Retrieve for its own collection and key, and Remove
    of the very credential that Retrieve returned. *)
Theorem write_methods_write_their_record key value options v :
  Forall (fun ev : Event =>
            let name := to_hstring (getSharedPreferences options) in
            ev.1 = Call_PasswordVault
            \/ ev.1 = Call_PasswordCredential name (to_hstring key) (to_hstring value)
            \/ ev.1 = Call_Add {| Resource := name; UserName := to_hstring key;
                                  Password := to_hstring value |})
         (trace (setItem key value options v))
  /\ Forall (fun ev : Event =>
               let name := to_hstring (getSharedPreferences options) in
               ev.1 = Call_PasswordVault
               \/ ev.1 = Call_Retrieve name (to_hstring key)
               \/ exists data v1 v2,
                    ev.1 = Call_Remove data
                    /\ PasswordVault v = (v1, Returned tt)
                    /\ Retrieve name (to_hstring key) v1 = (v2, Returned (Some data)))
            (trace (deleteItem key options v)).
Proof.
  split.
  - revert v.
    change (calls_only
              (fun c =>
                 let name := to_hstring (getSharedPreferences options) in
                 c = Call_PasswordVault
                 \/ c = Call_PasswordCredential name (to_hstring key) (to_hstring value)
                 \/ c = Call_Add {| Resource := name; UserName := to_hstring key;
                                    Password := to_hstring value |})
              (setItem key value options)).
    unfold setItem. calls; auto.
  - unfold deleteItem, try_catch, mbind, M_bind, bind, invoke, promise_Reject,
      promise_Resolve.
    destruct (string_empty key); [constructor |]. cbv zeta.
    destruct (PasswordVault v) as [v1 [[] | e]] eqn:E1; simpl.
    2: { repeat (apply Forall_cons; split; [simpl; auto |]). constructor. }
    destruct (Retrieve _ _ v1) as [v2 [[data |] | e]] eqn:E2; simpl.
    2, 3: repeat (apply Forall_cons; split; [simpl; auto |]); constructor.
    destruct (Remove data v2) as [v3 [[] | e]]; simpl;
      repeat (apply Forall_cons; split; [simpl; eauto 10 |]); constructor.
Qed.

(** X7: what each method can say on its promise. getItem resolves or
    rejects with one of the three reasons; setItem resolves with its value
    or rejects with "key is empty" or "cannot access datastore", never
    with "key not found"; deleteItem resolves with its key or rejects with
    one of the three reasons; getAllItems resolves or rejects with
    "cannot access datastore" only. *)
Theorem settlements_of_each_method key value options v :
  Forall (fun x => (exists s, x = Resolve s)
                   \/ x = Reject "key is empty"
                   \/ x = Reject "key not found"
                   \/ x = Reject "cannot access datastore")
         (settled (getItem key options v))
  /\ Forall (fun x => x = Resolve value
                      \/ x = Reject "key is empty"
                      \/ x = Reject "cannot access datastore")
            (settled (setItem key value options v))
  /\ Forall (fun x => x = Resolve key
                      \/ x = Reject "key is empty"
                      \/ x = Reject "key not found"
                      \/ x = Reject "cannot access datastore")
            (settled (deleteItem key options v))
  /\ Forall (fun x => (exists m, x = Resolve m)
                      \/ x = Reject "cannot access datastore")
            (settled (getAllItems options v)).
Proof.
  split; [| split; [| split]]; revert v.
  - change (settles_only
              (fun x => (exists s, x = Resolve s)
                        \/ x = Reject "key is empty"
                        \/ x = Reject "key not found"
                        \/ x = Reject "cannot access datastore")
              (getItem key options)).
    unfold getItem. settles; eauto.
  - change (settles_only
              (fun x => x = Resolve value
                        \/ x = Reject "key is empty"
                        \/ x = Reject "cannot access datastore")
              (setItem key value options)).
    unfold setItem. settles; eauto.
  - change (settles_only
              (fun x => x = Resolve key
                        \/ x = Reject "key is empty"
                        \/ x = Reject "key not found"
                        \/ x = Reject "cannot access datastore")
              (deleteItem key options)).
    unfold deleteItem. settles; eauto.
  - change (settles_only
              (fun x => (exists m, x = Resolve m)
                        \/ x = Reject "cannot access datastore")
              (getAllItems options)).
    unfold getAllItems. settles; eauto.
Qed.


(** The handler's rejection is on the promise exactly when a call threw,
    for a body that never rejects with that reason itself. *)
Lemma guarded_rejection_iff_raised {T} (body : M T unit) reason v :
  finishing body ->
  settles_only (fun x => x <> Reject reason) body ->
  (exists c e, (c, Some e) ∈ trace (try_catch body (promise_Reject reason) v))
  <-> Reject reason ∈ settled (try_catch body (promise_Reject reason) v).
Proof.
  intros Hfin Hnever. split.
  - intros (c & e & Hin).
    apply (try_catch_raised body reason v c e Hfin) in Hin as [-> _]. by left.
  - intros Hin.
    destruct (quiet_or_raised (trace (try_catch body (promise_Reject reason) v)))
      as [Hq | Hraised]; [exfalso | exact Hraised].
    rewrite (try_catch_quiet body reason v Hfin Hq) in Hin.
    specialize (Hnever v). rewrite Forall_forall in Hnever. by apply (Hnever _ Hin).
Qed.

(** X8: "cannot access datastore" is on the promise exactly when a
    platform call of the run threw: the reason is never given for an
    empty key, a missing record, or a run in which every call returned. *)
Theorem access_error_iff_raised key value options v :
  ((exists c e, (c, Some e) ∈ trace (getItem key options v))
   <-> Reject "cannot access datastore" ∈ settled (getItem key options v))
  /\ ((exists c e, (c, Some e) ∈ trace (setItem key value options v))
      <-> Reject "cannot access datastore" ∈ settled (setItem key value options v))
  /\ ((exists c e, (c, Some e) ∈ trace (deleteItem key options v))
      <-> Reject "cannot access datastore" ∈ settled (deleteItem key options v))
  /\ ((exists c e, (c, Some e) ∈ trace (getAllItems options v))
      <-> Reject "cannot access datastore" ∈ settled (getAllItems options v)).
Proof.
  assert (Hempty : forall T : Type,
            (exists c e, (c, Some e) ∈ trace (promise_Reject (T := T) "key is empty" v))
            <-> Reject "cannot access datastore"
                  ∈ settled (promise_Reject (T := T) "key is empty" v)).
  { intros T. split.
    - intros (c & e & Hin). by apply not_elem_of_nil in Hin.
    - intros Hin. apply list_elem_of_singleton in Hin. discriminate. }
  unfold getItem, setItem, deleteItem, getAllItems.
  split; [| split; [| split]];
    try (destruct (string_empty key); [apply Hempty |]);
    (apply guarded_rejection_iff_raised; [discipline | settles; discriminate]).
Qed.

Lemma getAllItems_loop_Normal name allKeys returnValue v m :
  completion (getAllItems_loop name allKeys returnValue v) = Normal m ->
  trace (getAllItems_loop name allKeys returnValue v)
    = (fun key => (Call_Retrieve (to_hstring name) (UserName key), None)) <$> allKeys
  /\ dom m = dom returnValue ∪ list_to_set ((fun key => to_string (UserName key)) <$> allKeys)
  /\ (map_Forall (fun _ x => exists s, x = JSString s) returnValue ->
      map_Forall (fun _ x => exists s, x = JSString s) m).
Proof.
  revert returnValue v. induction allKeys as [| key rest IH]; intros returnValue v;
    cbn [getAllItems_loop].
  - intros [= <-]. split; [reflexivity |]. split; [| done].
    rewrite fmap_nil. simpl. by rewrite (right_id_L ∅ (∪)).
  - unfold mbind, M_bind, bind, invoke.
    destruct (Retrieve _ _ v) as [v1 [[data |] | e]]; simpl; try discriminate.
    intros Hm.
    destruct (completion (getAllItems_loop name rest _ v1)) as [m' | |] eqn:Hc;
      simpl in Hm; try discriminate.
    injection Hm as ->.
    destruct (IH _ _ Hc) as (Ht & Hd & Hs). split; [by rewrite Ht |]. split.
    + rewrite Hd, dom_insert_L. simpl.
      by rewrite (comm_L (∪) {[_]} (dom returnValue)), <- (assoc_L (∪)).
    + intros Hall. apply Hs. apply map_Forall_insert_2; [by eexists | exact Hall].
Qed.

(** What a getAllItems that resolved has done. *)
Lemma getAllItems_resolved options v m :
  Resolve m ∈ settled (getAllItems options v) ->
  exists v1 v2 allKeys,
    PasswordVault v = (v1, Returned tt)
    /\ FindAllByResource (to_hstring (getSharedPreferences options)) v1
         = (v2, Returned allKeys)
    /\ completion (getAllItems_loop (getSharedPreferences options) allKeys ∅ v2) = Normal m
    /\ trace (getAllItems options v)
         = (Call_PasswordVault, None)
           :: (Call_FindAllByResource (to_hstring (getSharedPreferences options)), None)
           :: trace (getAllItems_loop (getSharedPreferences options) allKeys ∅ v2).
Proof.
  intros Hin.
  assert (Hq : quiet (trace (getAllItems options v))).
  { unfold getAllItems in *. eapply try_catch_resolved_quiet; [discipline | exact Hin]. }
  unfold getAllItems in *. cbv zeta in *.
  match type of Hq with
  | quiet (trace (try_catch ?body _ _)) =>
      assert (Hfin : finishing body) by discipline;
      rewrite (try_catch_quiet body "cannot access datastore" v Hfin Hq) in Hin;
      clear Hfin
  end.
  uncatch Hq.
  apply invoke_bind_quiet in Hq as (v1 & [] & E1 & Hq & _ & Hs1 & _ & ->).
  apply invoke_bind_quiet in Hq as (v2 & allKeys & E2 & Hq & _ & Hs2 & _ & ->).
  rewrite Hs1, Hs2 in Hin. exists v1, v2, allKeys.
  split; [exact E1 |]. split; [exact E2 |].
  destruct (getAllItems_loop_silent (getSharedPreferences options) allKeys ∅ v2)
    as [Hsilent _].
  unfold mbind, M_bind, bind in *.
  destruct (completion (getAllItems_loop _ allKeys ∅ v2)) as [m' | e |]; simpl in *;
    rewrite Hsilent in Hin; simpl in Hin.
  - apply list_elem_of_singleton in Hin. injection Hin as ->.
    split; [reflexivity |]. by rewrite app_nil_r.
  - by apply not_elem_of_nil in Hin.
  - by apply not_elem_of_nil in Hin.
Qed.

(** X11: a getAllItems that resolved called the vault's constructor,
    FindAllByResource once, and Retrieve once for each credential
    enumerated, in the order of the enumeration and nothing else; and the
    keys of the mapping are exactly the user names enumerated. *)
Theorem getAllItems_enumerates options v m :
  Resolve m ∈ settled (getAllItems options v) ->
  exists v1 v2 allKeys,
    PasswordVault v = (v1, Returned tt)
    /\ FindAllByResource (to_hstring (getSharedPreferences options)) v1
         = (v2, Returned allKeys)
    /\ trace (getAllItems options v)
         = (Call_PasswordVault, None)
           :: (Call_FindAllByResource (to_hstring (getSharedPreferences options)), None)
           :: ((fun key =>
                  (Call_Retrieve (to_hstring (getSharedPreferences options)) (UserName key),
                   None)) <$> allKeys)
    /\ dom m = list_to_set ((fun key => to_string (UserName key)) <$> allKeys).
Proof.
  intros Hin.
  destruct (getAllItems_resolved options v m Hin) as (v1 & v2 & allKeys & E1 & E2 & Hc & Ht).
  destruct (getAllItems_loop_Normal _ _ _ _ _ Hc) as (Hloop & Hdom & _).
  exists v1, v2, allKeys. split; [exact E1 |]. split; [exact E2 |].
  split; [by rewrite Ht, Hloop |].
  by rewrite Hdom, dom_empty_L, (left_id_L ∅ (∪)).
Qed.

(** X12: every value of a mapping that getAllItems resolves with is a
    JavaScript string. *)
Theorem getAllItems_values_are_strings options v m k x :
  Resolve m ∈ settled (getAllItems options v) ->
  m !! k = Some x ->
  exists s, x = JSString s.
Proof.
  intros Hin Hk.
  destruct (getAllItems_resolved options v m Hin) as (v1 & v2 & allKeys & _ & _ & Hc & _).
  destruct (getAllItems_loop_Normal _ _ _ _ _ Hc) as (_ & _ & Hall).
  apply (Hall (map_Forall_empty _) k x Hk).
Qed.

(** X13: fields of the options other than sharedPreferencesName are
    ignored: adding, changing or removing one changes neither the
    resolved collection nor the run of any method. *)
Theorem unrecognised_fields_are_ignored key value options field x v :
  field <> "sharedPreferencesName" ->
  getSharedPreferences (<[field := x]> options) = getSharedPreferences options
  /\ getSharedPreferences (delete field options) = getSharedPreferences options
  /\ getItem key (<[field := x]> options) v = getItem key options v
  /\ setItem key value (<[field := x]> options) v = setItem key value options v
  /\ deleteItem key (<[field := x]> options) v = deleteItem key options v
  /\ getAllItems (<[field := x]> options) v = getAllItems options v.
Proof.
  intros Hfield.
  assert (Hins : getSharedPreferences (<[field := x]> options) = getSharedPreferences options).
  { unfold getSharedPreferences. by rewrite lookup_insert_ne. }
  split; [exact Hins |]. split.
  - unfold getSharedPreferences. by rewrite lookup_delete_ne.
  - unfold getItem, setItem, deleteItem, getAllItems. by rewrite Hins.
Qed.

End FurtherAnyPlatform.

(** ** Further properties over a vault that keeps its contract *)

Section FurtherOverContract.
Context `{Platform}.
Context (contents : Vault -> gmap (hstring * hstring) hstring).
Context `{!VaultContract contents}.

(** A keyed method whose promise was not rejected by the handler ran
    quietly. *)
Lemma guarded_quiet_or_rejected {T} (body : M T unit) reason v :
  finishing body ->
  quiet (trace (try_catch body (promise_Reject reason) v))
  \/ settled (try_catch body (promise_Reject reason) v) = [Reject reason].
Proof.
  intros Hb.
  destruct (quiet_or_raised (trace (try_catch body (promise_Reject reason) v)))
    as [Hq | (c & e & Hin)]; [by left | right].
  by apply (try_catch_raised body reason v c e Hb) in Hin as [Hin _].
Qed.

Lemma getAllItems_loop_keeps name allKeys returnValue v :
  quiet (trace (getAllItems_loop name allKeys returnValue v)) ->
  contents (vault_after (getAllItems_loop name allKeys returnValue v)) = contents v.
Proof.
  revert returnValue v. induction allKeys as [| key rest IH]; intros returnValue v Hq.
  - reflexivity.
  - cbn [getAllItems_loop] in *.
    apply invoke_bind_quiet in Hq as (v1 & data & E & Hq & -> & _).
    apply Retrieve_returned in E as [E _].
    destruct data as [data |]; simpl in *; [| assumption].
    rewrite <- E. by apply IH.
Qed.

Lemma getAllItems_keeps options v :
  quiet (trace (getAllItems options v)) ->
  contents (vault_after (getAllItems options v)) = contents v.
Proof.
  intros Hq. unfold getAllItems in *. cbv zeta in *. uncatch Hq.
  apply invoke_bind_quiet in Hq as (v1 & [] & E1 & Hq & -> & _).
  apply invoke_bind_quiet in Hq as (v2 & allKeys & E2 & Hq & -> & _).
  apply PasswordVault_returned in E1.
  apply FindAllByResource_returned in E2 as [E2 _].
  pose proof (getAllItems_loop_keeps (getSharedPreferences options) allKeys ∅ v2
                (bind_quiet_l _ _ _ Hq)) as Hloop.
  unfold mbind, M_bind, bind.
  destruct (completion (getAllItems_loop _ allKeys ∅ v2)); simpl;
    by rewrite Hloop, E2, E1.
Qed.


(** X1: a setItem in which no platform call throws changes one record
    only. Any other record, of the same collection under another key or
    of another collection under any key, is what it was, and a getItem
    of it answers after the setItem what it answered before. *)
Theorem setItem_changes_one_record key value options key' options' v :
  key <> "" ->
  key' <> "" ->
  quiet (trace (setItem key value options v)) ->
  (to_hstring (getSharedPreferences options'), to_hstring key')
    <> (to_hstring (getSharedPreferences options), to_hstring key) ->
  let v1 := vault_after (setItem key value options v) in
  contents v1 !! (to_hstring (getSharedPreferences options'), to_hstring key')
    = contents v !! (to_hstring (getSharedPreferences options'), to_hstring key')
  /\ (quiet (trace (getItem key' options' v)) ->
      quiet (trace (getItem key' options' v1)) ->
      settled (getItem key' options' v1) = settled (getItem key' options' v)).
Proof.
  intros Hk Hk' Hq Hother v1.
  destruct (setItem_quiet contents key value options v Hk Hq) as [Hc _].
  fold v1 in Hc.
  assert (Hsame : contents v1 !! (to_hstring (getSharedPreferences options'), to_hstring key')
                  = contents v !! (to_hstring (getSharedPreferences options'), to_hstring key')).
  { rewrite Hc. by apply lookup_insert_ne. }
  split; [exact Hsame |]. intros Hbefore Hafter.
  destruct (getItem_quiet contents key' options' v Hk' Hbefore) as [_ ->].
  destruct (getItem_quiet contents key' options' v1 Hk' Hafter) as [_ ->].
  by rewrite Hsame.
Qed.

(** X2: a deleteItem in which no platform call throws changes one record
    only: a getItem of any other record answers afterwards what it
    answered before, and deleting the same key again rejects with
    "key not found". *)
Theorem deleteItem_changes_one_record key options key' options' v :
  key <> "" ->
  key' <> "" ->
  quiet (trace (deleteItem key options v)) ->
  (to_hstring (getSharedPreferences options'), to_hstring key')
    <> (to_hstring (getSharedPreferences options), to_hstring key) ->
  let v1 := vault_after (deleteItem key options v) in
  contents v1 !! (to_hstring (getSharedPreferences options'), to_hstring key')
    = contents v !! (to_hstring (getSharedPreferences options'), to_hstring key')
  /\ (quiet (trace (getItem key' options' v)) ->
      quiet (trace (getItem key' options' v1)) ->
      settled (getItem key' options' v1) = settled (getItem key' options' v))
  /\ (quiet (trace (deleteItem key options v1)) ->
      settled (deleteItem key options v1) = [Reject "key not found"]).
Proof.
  intros Hk Hk' Hq Hother v1.
  pose proof (deleteItem_quiet contents key options v Hk Hq) as Hdel. fold v1 in Hdel.
  assert (Hc : contents v1 =
               delete (to_hstring (getSharedPreferences options), to_hstring key) (contents v)).
  { destruct (contents v !! _) as [p |] eqn:Hp; destruct Hdel as [Hc _]; [exact Hc |].
    rewrite Hc. symmetry. by apply delete_id. }
  assert (Hsame : contents v1 !! (to_hstring (getSharedPreferences options'), to_hstring key')
                  = contents v !! (to_hstring (getSharedPreferences options'), to_hstring key')).
  { rewrite Hc. by apply lookup_delete_ne. }
  split; [exact Hsame |]. split.
  - intros Hbefore Hafter.
    destruct (getItem_quiet contents key' options' v Hk' Hbefore) as [_ ->].
    destruct (getItem_quiet contents key' options' v1 Hk' Hafter) as [_ ->].
    by rewrite Hsame.
  - intros Hagain.
    pose proof (deleteItem_quiet contents key options v1 Hk Hagain) as Hdel'.
    rewrite Hc, lookup_delete_eq in Hdel'. apply Hdel'.
Qed.

(** X3: getItem of a key that has a record resolves with the stored
    value converted to a string, whoever stored it, and reading it again
    gives the same answer. *)
Theorem getItem_reads_stored_value key options v p :
  key <> "" ->
  contents v !! (to_hstring (getSharedPreferences options), to_hstring key) = Some p ->
  quiet (trace (getItem key options v)) ->
  settled (getItem key options v) = [Resolve (to_string p)]
  /\ (quiet (trace (getItem key options (vault_after (getItem key options v)))) ->
      settled (getItem key options (vault_after (getItem key options v)))
        = [Resolve (to_string p)]).
Proof.
  intros Hk Hp Hq.
  destruct (getItem_quiet contents key options v Hk Hq) as [Hc Hs].
  rewrite Hp in Hs. split; [exact Hs |]. intros Hagain.
  destruct (getItem_quiet contents key options _ Hk Hagain) as [_ ->].
  by rewrite Hc, Hp.
Qed.

(** X4: getItem, getAllItems, and a deleteItem that finds no record
    leave every record of the vault as it was. *)
Theorem reads_keep_records key options v :
  (key <> "" -> quiet (trace (getItem key options v)) ->
   contents (vault_after (getItem key options v)) = contents v)
  /\ (quiet (trace (getAllItems options v)) ->
      contents (vault_after (getAllItems options v)) = contents v)
  /\ (key <> "" -> quiet (trace (deleteItem key options v)) ->
      contents v !! (to_hstring (getSharedPreferences options), to_hstring key) = None ->
      contents (vault_after (deleteItem key options v)) = contents v).
Proof.
  split; [| split].
  - intros Hk Hq. by destruct (getItem_quiet contents key options v Hk Hq) as [Hc _].
  - apply getAllItems_keeps.
  - intros Hk Hq Habsent.
    pose proof (deleteItem_quiet contents key options v Hk Hq) as Hdel.
    rewrite Habsent in Hdel. apply Hdel.
Qed.

(** X9: "key not found" is never a false alarm: when getItem or
    deleteItem rejects with it, the key was not empty and the resolved
    collection held no record under it. *)
Theorem key_not_found_only_when_absent key options v :
  (Reject "key not found" ∈ settled (getItem key options v) ->
   key <> ""
   /\ contents v !! (to_hstring (getSharedPreferences options), to_hstring key) = None)
  /\ (Reject "key not found" ∈ settled (deleteItem key options v) ->
      key <> ""
      /\ contents v !! (to_hstring (getSharedPreferences options), to_hstring key) = None).
Proof.
  split; intros Hin.
  - assert (Hk : key <> "").
    { intros ->. apply list_elem_of_singleton in Hin. discriminate. }
    split; [exact Hk |].
    assert (Hq : quiet (trace (getItem key options v))).
    { pose proof (string_empty_false _ Hk) as Hne. unfold getItem in *. rewrite Hne in *.
      match goal with
      | |- quiet (trace (try_catch ?body _ _)) =>
          destruct (guarded_quiet_or_rejected body "cannot access datastore" v)
            as [Hq | Hs]; [discipline | exact Hq |]
      end.
      rewrite Hs in Hin. apply list_elem_of_singleton in Hin. discriminate. }
    destruct (getItem_quiet contents key options v Hk Hq) as [_ Hs].
    rewrite Hs in Hin. apply list_elem_of_singleton in Hin.
    by destruct (contents v !! _).
  - assert (Hk : key <> "").
    { intros ->. apply list_elem_of_singleton in Hin. discriminate. }
    split; [exact Hk |].
    assert (Hq : quiet (trace (deleteItem key options v))).
    { pose proof (string_empty_false _ Hk) as Hne. unfold deleteItem in *. rewrite Hne in *.
      match goal with
      | |- quiet (trace (try_catch ?body _ _)) =>
          destruct (guarded_quiet_or_rejected body "cannot access datastore" v)
            as [Hq | Hs]; [discipline | exact Hq |]
      end.
      rewrite Hs in Hin. apply list_elem_of_singleton in Hin. discriminate. }
    pose proof (deleteItem_quiet contents key options v Hk Hq) as Hdel.
    destruct (contents v !! _); [| reflexivity].
    destruct Hdel as [_ Hs]. rewrite Hs in Hin.
    apply list_elem_of_singleton in Hin. discriminate.
Qed.


(** X10: getAllItems reflects the last write. After a setItem the
    listing of that collection holds the key with the value set, after a
    deleteItem it does not hold the key, and under every other key it
    holds what the collection held before. *)
Theorem getAllItems_after_write `{!TextLaws} key value options options' v :
  key <> "" ->
  getSharedPreferences options' = getSharedPreferences options ->
  (let v1 := vault_after (setItem key value options v) in
   quiet (trace (setItem key value options v)) ->
   quiet (trace (getAllItems options' v1)) ->
   exists m : JSValueObject,
     settled (getAllItems options' v1) = [Resolve m]
     /\ m !! key = Some (JSString value)
     /\ forall k, k <> key ->
          m !! k = reported contents v (getSharedPreferences options) k)
  /\ (let v1 := vault_after (deleteItem key options v) in
      quiet (trace (deleteItem key options v)) ->
      quiet (trace (getAllItems options' v1)) ->
      exists m : JSValueObject,
        settled (getAllItems options' v1) = [Resolve m]
        /\ m !! key = None
        /\ forall k, k <> key ->
             m !! k = reported contents v (getSharedPreferences options) k).
Proof.
  intros Hk Hname.
  assert (Hinj : forall k, k <> key -> to_hstring k <> to_hstring key).
  { intros k Hne Heq. apply Hne.
    by rewrite <- (to_string_to_hstring k), Heq, to_string_to_hstring. }
  split; intros v1 Hq Hall.
  - destruct (setItem_quiet contents key value options v Hk Hq) as [Hc _]. fold v1 in Hc.
    destruct (getAllItems_quiet contents options' v1 Hall) as [_ (m & Hs & Hm)].
    exists m. split; [exact Hs |]. unfold reported in *. rewrite Hname, Hc in Hm. split.
    + by rewrite Hm, lookup_insert_eq; simpl; rewrite to_string_to_hstring.
    + intros k Hne. rewrite Hm, lookup_insert_ne; [reflexivity |].
      intros [= Heq]. by apply (Hinj k Hne).
  - pose proof (deleteItem_quiet contents key options v Hk Hq) as Hdel. fold v1 in Hdel.
    assert (Hc : contents v1 =
                 delete (to_hstring (getSharedPreferences options), to_hstring key)
                   (contents v)).
    { destruct (contents v !! _) as [p |] eqn:Hp; destruct Hdel as [Hc _]; [exact Hc |].
      rewrite Hc. symmetry. by apply delete_id. }
    destruct (getAllItems_quiet contents options' v1 Hall) as [_ (m & Hs & Hm)].
    exists m. split; [exact Hs |]. unfold reported in *. rewrite Hname, Hc in Hm. split.
    + by rewrite Hm, lookup_delete_eq.
    + intros k Hne. rewrite Hm, lookup_delete_ne; [reflexivity |].
      intros [= Heq]. by apply (Hinj k Hne).
Qed.


(** X14: collections do not leak into each other's listing: a setItem
    or deleteItem in one collection leaves the getAllItems of a
    collection with another name exactly as it was. *)
Theorem other_collection_listing_unchanged `{!TextLaws} key value options options' v :
  key <> "" ->
  to_hstring (getSharedPreferences options') <> to_hstring (getSharedPreferences options) ->
  quiet (trace (getAllItems options' v)) ->
  (let v1 := vault_after (setItem key value options v) in
   quiet (trace (setItem key value options v)) ->
   quiet (trace (getAllItems options' v1)) ->
   settled (getAllItems options' v1) = settled (getAllItems options' v))
  /\ (let v1 := vault_after (deleteItem key options v) in
      quiet (trace (deleteItem key options v)) ->
      quiet (trace (getAllItems options' v1)) ->
      settled (getAllItems options' v1) = settled (getAllItems options' v)).
Proof.
  intros Hk Hname Hbefore.
  destruct (getAllItems_quiet contents options' v Hbefore) as [_ (m & -> & Hm)].
  assert (Hsame : forall v1,
            (forall u, contents v1 !! (to_hstring (getSharedPreferences options'), u)
                       = contents v !! (to_hstring (getSharedPreferences options'), u)) ->
            quiet (trace (getAllItems options' v1)) ->
            settled (getAllItems options' v1) = [Resolve m]).
  { intros v1 Hc Hafter.
    destruct (getAllItems_quiet contents options' v1 Hafter) as [_ (m1 & -> & Hm1)].
    do 2 f_equal. apply map_eq. intros k. rewrite Hm, Hm1. unfold reported. by rewrite Hc. }
  split; intros v1 Hq Hafter; apply Hsame; try assumption; intros u.
  - destruct (setItem_quiet contents key value options v Hk Hq) as [Hc _]. fold v1 in Hc.
    rewrite Hc. apply lookup_insert_ne. by intros [= ? ?].
  - pose proof (deleteItem_quiet contents key options v Hk Hq) as Hdel. fold v1 in Hdel.
    destruct (contents v !! (to_hstring (getSharedPreferences options), to_hstring key));
      destruct Hdel as [Hc _]; rewrite Hc; [| reflexivity].
    apply lookup_delete_ne. by intros [= ? ?].
Qed.

End FurtherOverContract.

(** ** The further theorems at work on the reference platform *)

Section FurtherOnReference.
Import Reference.

(** Evaluate a run on the reference platform and read the result off. *)
Ltac compute_run := vm_compute; repeat constructor.

(** Writing "c" in the default collection leaves "c" of "elsewhere". *)
Lemma setItem_changes_one_record_witness :
  settled (getItem "c" elsewhere (vault_after (setItem "c" "9" ∅ (healthy two_items))))
    = settled (getItem "c" elsewhere (healthy two_items)).
Proof.
  apply (@setItem_changes_one_record _ platform records reference_contract
           "c" "9" ∅ "c" elsewhere (healthy two_items));
    [discriminate | discriminate | compute_run | vm_compute; discriminate
    | compute_run | compute_run].
Defined.

(** Deleting "a" leaves "b", and "a" cannot be deleted twice. *)
Lemma deleteItem_changes_one_record_witness :
  settled (getItem "b" ∅ (vault_after (deleteItem "a" ∅ (healthy two_items))))
    = settled (getItem "b" ∅ (healthy two_items))
  /\ settled (deleteItem "a" ∅ (vault_after (deleteItem "a" ∅ (healthy two_items))))
       = [Reject "key not found"].
Proof.
  destruct (@deleteItem_changes_one_record _ platform records reference_contract
              "a" ∅ "b" ∅ (healthy two_items))
    as (_ & Hother & Hagain);
    [discriminate | discriminate | compute_run | vm_compute; discriminate |].
  split; [apply Hother | apply Hagain]; compute_run.
Defined.

(** Reading "a" twice. *)
Lemma getItem_reads_stored_value_witness :
  settled (getItem "a" ∅ (healthy two_items)) = [Resolve "1"]
  /\ settled (getItem "a" ∅ (vault_after (getItem "a" ∅ (healthy two_items))))
       = [Resolve "1"].
Proof.
  destruct (@getItem_reads_stored_value _ platform records reference_contract
              "a" ∅ (healthy two_items) "1")
    as [Honce Htwice]; [discriminate | vm_compute; reflexivity | compute_run |].
  split; [exact Honce | apply Htwice; compute_run].
Defined.

(** Reading "a", listing, and deleting the absent "token". *)
Lemma reads_keep_records_witness :
  records (vault_after (getItem "a" ∅ (healthy two_items))) = two_items
  /\ records (vault_after (getAllItems ∅ (healthy two_items))) = two_items
  /\ records (vault_after (deleteItem "token" ∅ (healthy two_items))) = two_items.
Proof.
  destruct (@reads_keep_records _ platform records reference_contract
              "a" ∅ (healthy two_items)) as (Hget & Hall & _).
  destruct (@reads_keep_records _ platform records reference_contract
              "token" ∅ (healthy two_items)) as (_ & _ & Hdelete).
  split; [| split].
  - apply Hget; [discriminate | compute_run].
  - apply Hall. compute_run.
  - apply Hdelete; [discriminate | compute_run | vm_compute; reflexivity].
Defined.

(** "token" was reported missing, and it is. *)
Lemma key_not_found_only_when_absent_witness :
  records (healthy two_items) !! ("shared_preferences", "token") = None.
Proof.
  destruct (@key_not_found_only_when_absent _ platform records reference_contract
              "token" ∅ (healthy two_items)) as [Hget _].
  destruct Hget as [_ Habsent]; [compute_run |].
  vm_compute in Habsent. vm_compute. exact Habsent.
Defined.

(** Listing after setting "c" and after deleting "a". *)
Lemma getAllItems_after_write_witness :
  (exists m : JSValueObject,
     settled (getAllItems ∅ (vault_after (setItem "c" "9" ∅ (healthy two_items))))
       = [Resolve m]
     /\ m !! "c" = Some (JSString "9"))
  /\ (exists m : JSValueObject,
        settled (getAllItems ∅ (vault_after (deleteItem "a" ∅ (healthy two_items))))
          = [Resolve m]
        /\ m !! "a" = None).
Proof.
  split.
  - destruct (@getAllItems_after_write _ platform records reference_contract
                reference_text_laws "c" "9" ∅ ∅ (healthy two_items))
      as [Hset _]; [discriminate | reflexivity |].
    destruct Hset as (m & Hm & Hkey & _); [compute_run | compute_run |].
    exists m. split; [exact Hm | exact Hkey].
  - destruct (@getAllItems_after_write _ platform records reference_contract
                reference_text_laws "a" "" ∅ ∅ (healthy two_items))
      as [_ Hdelete]; [discriminate | reflexivity |].
    destruct Hdelete as (m & Hm & Hkey & _); [compute_run | compute_run |].
    exists m. split; [exact Hm | exact Hkey].
Defined.

(** Four calls for two items, and the keys of the two. *)
Lemma getAllItems_enumerates_witness :
  exists allKeys : list PasswordCredential,
    length allKeys = 2
    /\ length (trace (getAllItems ∅ (healthy two_items))) = 4
    /\ dom two_listed = list_to_set ((fun key => to_string (UserName key)) <$> allKeys).
Proof.
  destruct (@getAllItems_enumerates _ platform ∅ (healthy two_items) two_listed)
    as (v1 & v2 & allKeys & Hnew & Hfind & Htrace & Hdom); [compute_run |].
  exists allKeys. assert (Hlen : length allKeys = 2).
  { vm_compute in Hnew. injection Hnew as <-.
    vm_compute in Hfind. injection Hfind as _ <-. reflexivity. }
  split; [exact Hlen |]. split; [| exact Hdom].
  rewrite Htrace. simpl. rewrite length_fmap, Hlen. reflexivity.
Defined.

(** The value under "a" is a string. *)
Lemma getAllItems_values_are_strings_witness :
  exists s, JSString "1" = JSString s.
Proof.
  apply (@getAllItems_values_are_strings _ platform ∅ (healthy two_items) two_listed "a");
    [compute_run | vm_compute; reflexivity].
Defined.

(** A field the adapter does not know. *)
Lemma unrecognised_fields_are_ignored_witness :
  getItem "a" (<["touchID" := JSBoolean true]> elsewhere) (healthy two_items)
    = getItem "a" elsewhere (healthy two_items).
Proof.
  apply (@unrecognised_fields_are_ignored _ platform "a" "" elsewhere "touchID"
           (JSBoolean true) (healthy two_items)).
  discriminate.
Defined.

(** Writing and deleting in the default collection, listing "elsewhere". *)
Lemma other_collection_listing_unchanged_witness :
  settled (getAllItems elsewhere (vault_after (setItem "c" "9" ∅ (healthy two_items))))
    = settled (getAllItems elsewhere (healthy two_items))
  /\ settled (getAllItems elsewhere (vault_after (deleteItem "a" ∅ (healthy two_items))))
       = settled (getAllItems elsewhere (healthy two_items)).
Proof.
  destruct (@other_collection_listing_unchanged _ platform records reference_contract
              reference_text_laws "c" "9" ∅ elsewhere (healthy two_items))
    as [Hset _]; [discriminate | vm_compute; discriminate | compute_run |].
  destruct (@other_collection_listing_unchanged _ platform records reference_contract
              reference_text_laws "a" "" ∅ elsewhere (healthy two_items))
    as [_ Hdelete]; [discriminate | vm_compute; discriminate | compute_run |].
  split; [apply Hset | apply Hdelete]; compute_run.
Defined.

End FurtherOnReference.
